(** * filter_bam: mate-pair filtering of alignments, embedded from
    [src/filter_bam.py]

    The development follows the source function by function:
    [rev_comp], the two FASTQ printers, [both_mapped], [mated],
    [perfect_alignments], the generator [read_bam] and the driver
    [evaluate].  Python values are modelled as the code uses them:
    integers as [Z], [str] as [string], the flag word of a record as a
    [Z] inspected with [Z.land], the tag set of a record as an
    association list, and exceptions as a result type threaded through a
    state monad over the things the program mutates. *)

From Stdlib Require Import ZArith List String Ascii Bool Arith Lia.
Import ListNotations.

Local Open Scope string_scope.
Local Open Scope Z_scope.

(** * Alignment records

    Fields of pysam's [AlignedSegment] that the program reads.  The
    boolean properties are pysam's views of the SAM flag word. *)

Record AlignedSegment : Type := mkRead {
  query_name : string;
  flag : Z;
  rname : Z;
  isize : Z;
  cigar : list (Z * Z);
  tags : list (string * Z);
  seq : string;
  qual : string
}.

Definition flag_and (read : AlignedSegment) (mask : Z) : bool :=
  negb (Z.land (flag read) mask =? 0).

Definition is_unmapped (read : AlignedSegment) : bool := flag_and read 4.
Definition is_reverse (read : AlignedSegment) : bool := flag_and read 16.
Definition is_read1 (read : AlignedSegment) : bool := flag_and read 64.
Definition is_read2 (read : AlignedSegment) : bool := flag_and read 128.
Definition is_secondary (read : AlignedSegment) : bool := flag_and read 256.

(** [read.get_tag(name)]: the value of the first tag of that name;
    [None] stands for the [KeyError] pysam raises when there is none. *)
Fixpoint lookup_tag (name : string) (l : list (string * Z)) : option Z :=
  match l with
  | [] => None
  | (k, v) :: l' => if String.eqb k name then Some v else lookup_tag name l'
  end.

Definition get_tag (read : AlignedSegment) (name : string) : option Z :=
  lookup_tag name (tags read).

(** * Exceptions and results *)

(** The exceptions of a run, with the arguments they are raised with:
    [raise ValueError] raises an instance without argument. *)
Inductive exn : Type :=
| StopIteration
| ValueError (args : list string)
| KeyError (key : ascii)
| RuntimeError (args : list string).

Inductive res (A : Type) : Type :=
| Ok (a : A)
| Exc (e : exn).

Arguments Ok {A} a.
Arguments Exc {A} e.

(** * Sequence orientation: [rev_comp] *)

Definition nl : string := String "010"%char EmptyString.

(** [s[::-1]] *)
Fixpoint string_rev (s : string) : string :=
  match s with
  | EmptyString => EmptyString
  | String c s' => string_rev s' ++ String c EmptyString
  end.

(** The dict [code] of [rev_comp], in the order it is written. *)
Definition code_table : list (ascii * ascii) :=
  [ ("A", "T"); ("T", "A"); ("C", "G"); ("G", "C"); ("N", "N") ]%char.

Fixpoint lookup_code (c : ascii) (l : list (ascii * ascii)) : option ascii :=
  match l with
  | [] => None
  | (k, v) :: l' => if Ascii.eqb k c then Some v else lookup_code c l'
  end.

(** [code[c]]; [None] is the [KeyError] of a missing key. *)
Definition code (c : ascii) : option ascii := lookup_code c code_table.

(** The [for] loop of [rev_comp]: [new_seq += code[seq[i]]] for each
    position of [seq] in order. *)
Fixpoint rev_comp_loop (seq new_seq : string) : res string :=
  match seq with
  | EmptyString => Ok new_seq
  | String c rest =>
      match code c with
      | Some d => rev_comp_loop rest (new_seq ++ String d EmptyString)
      | None => Exc (KeyError c)
      end
  end.

Definition rev_comp (seq qual : string) : res (string * string) :=
  match rev_comp_loop seq EmptyString with
  | Ok new_seq => Ok (string_rev new_seq, string_rev qual)
  | Exc e => Exc e
  end.

(** What both printers do with a record before writing it:
    [cur_seq = read.seq; cur_qual = read.qual;
     if read.is_reverse: (cur_seq, cur_qual) = rev_comp(read.seq, read.qual)]. *)
Definition normalize (sequence quality : string) (is_reverse : bool)
  : res (string * string) :=
  if is_reverse then rev_comp sequence quality else Ok (sequence, quality).

(** ["@{}\n{}\n+\n{}\n".format(name, cur_seq, cur_qual)] *)
Definition fastq_record (name cur_seq cur_qual : string) : string :=
  "@" ++ name ++ nl ++ cur_seq ++ nl ++ "+" ++ nl ++ cur_qual ++ nl.

(** The alphabet on which [code] is defined. *)
Definition is_base (c : ascii) : bool :=
  match code c with Some _ => true | None => false end.

Fixpoint bases (s : string) : bool :=
  match s with
  | EmptyString => true
  | String c s' => is_base c && bases s'
  end.

(** The complement as a total map, the identity off the alphabet. *)
Definition complement (c : ascii) : ascii :=
  match code c with Some d => d | None => c end.

Fixpoint string_map (f : ascii -> ascii) (s : string) : string :=
  match s with
  | EmptyString => EmptyString
  | String c s' => String (f c) (string_map f s')
  end.

(** * Classification predicates *)

Definition window : Z := 500.

Definition both_mapped (read1 read2 : AlignedSegment) : bool :=
  negb (is_unmapped read1 && is_unmapped read2).

Definition mated (read1 read2 : AlignedSegment) (stype : string) : bool :=
  if String.eqb stype "DNA"
  then (rname read1 =? rname read2) && (Z.abs (isize read1) <? window)
  else rname read1 =? rname read2.

(** One [try] block of [perfect_alignments]: the tag is read on [read1],
    then on [read2]; the block fails when either lookup raises. *)
Definition try_tags (name : string) (read1 read2 : AlignedSegment)
  : option (Z * Z) :=
  match get_tag read1 name with
  | None => None
  | Some r1_edit =>
      match get_tag read2 name with
      | None => None
      | Some r2_edit => Some (r1_edit, r2_edit)
      end
  end.

(** The nested [try]/[except]: ["NM"] on both records, else ["nM"] on
    both records, else nothing. *)
Definition edit_tags (read1 read2 : AlignedSegment) : option (Z * Z) :=
  match try_tags "NM" read1 read2 with
  | Some e => Some e
  | None => try_tags "nM" read1 read2
  end.

(** [len(read.cigar) == 1 and read.cigar[0][0] == 0] *)
Definition single_match (read : AlignedSegment) : bool :=
  (Nat.eqb (List.length (cigar read)) 1)
  && match cigar read with
     | (op, _) :: _ => op =? 0
     | [] => false
     end.

(** [mm] is the value of [int(mm)], the mismatch bound of the run. *)
Definition perfect_alignments (read1 read2 : AlignedSegment) (mm : Z) : bool :=
  match edit_tags read1 read2 with
  | None => false
  | Some (r1_edit, r2_edit) =>
      single_match read1 && single_match read2
      && ((r1_edit <=? mm) && (r2_edit <=? mm))
  end.

(** The three ways the body of the loop of [evaluate] treats a pair:
    [pass], print and count in [ambiguous_count], print and count in
    [keep_count]. *)
Inductive outcome : Type := Discard | KeepUnmapped | KeepAmbiguous.

Definition classify (read1 read2 : AlignedSegment) (mm : Z) (stype : string)
  : outcome :=
  if negb (is_unmapped read1 && is_unmapped read2) then
    if both_mapped read1 read2 && mated read1 read2 stype
       && perfect_alignments read1 read2 mm
    then Discard
    else KeepAmbiguous
  else KeepUnmapped.

(** * The state of a run

    What the program mutates: the record iterator [bamiter] (the records
    it has yet to return), the global [total_reads], the text appended to
    [logfile], and the text written to the two pairs of destinations. *)

Record world : Type := mkWorld {
  bamiter : list AlignedSegment;
  total_reads : nat;
  logfile : string;
  fq1 : string;
  fq2 : string;
  stdout : string;
  stderr : string
}.

Definition M (A : Type) : Type := world -> res A * world.

Definition ret {A : Type} (a : A) : M A := fun w => (Ok a, w).

Definition raise {A : Type} (e : exn) : M A := fun w => (Exc e, w).

Definition bind {A B : Type} (m : M A) (k : A -> M B) : M B :=
  fun w =>
    match m w with
    | (Ok a, w') => k a w'
    | (Exc e, w') => (Exc e, w')
    end.

Definition lift {A : Type} (r : res A) : M A := fun w => (r, w).

Declare Scope run_scope.
Delimit Scope run_scope with run.
Notation "x <- m ;; k" := (bind m (fun x => k))
  (at level 61, m at next level, right associativity) : run_scope.
Notation "m ;; k" := (bind m (fun _ => k))
  (at level 61, right associativity) : run_scope.
Local Open Scope run_scope.

Definition write_logfile (s : string) : M unit := fun w =>
  (Ok tt, mkWorld (bamiter w) (total_reads w) (logfile w ++ s)
                  (fq1 w) (fq2 w) (stdout w) (stderr w)).

Definition write_fq1 (s : string) : M unit := fun w =>
  (Ok tt, mkWorld (bamiter w) (total_reads w) (logfile w)
                  (fq1 w ++ s) (fq2 w) (stdout w) (stderr w)).

Definition write_fq2 (s : string) : M unit := fun w =>
  (Ok tt, mkWorld (bamiter w) (total_reads w) (logfile w)
                  (fq1 w) (fq2 w ++ s) (stdout w) (stderr w)).

Definition write_stdout (s : string) : M unit := fun w =>
  (Ok tt, mkWorld (bamiter w) (total_reads w) (logfile w)
                  (fq1 w) (fq2 w) (stdout w ++ s) (stderr w)).

Definition write_stderr (s : string) : M unit := fun w =>
  (Ok tt, mkWorld (bamiter w) (total_reads w) (logfile w)
                  (fq1 w) (fq2 w) (stdout w) (stderr w ++ s)).

(** * The FASTQ printers

    [print_fastq] and [print_fastq_to_pipes] have the same body up to the
    two destinations: the first mate is oriented and written, then the
    second. *)

Definition write_pair (write1 write2 : string -> M unit)
    (read1 read2 : AlignedSegment) : M unit :=
  cur1 <- lift (normalize (seq read1) (qual read1) (is_reverse read1)) ;;
  write1 (fastq_record (query_name read1) (fst cur1) (snd cur1)) ;;
  cur2 <- lift (normalize (seq read2) (qual read2) (is_reverse read2)) ;;
  write2 (fastq_record (query_name read2) (fst cur2) (snd cur2)).

Definition print_fastq : AlignedSegment -> AlignedSegment -> M unit :=
  write_pair write_fq1 write_fq2.

Definition print_fastq_to_pipes : AlignedSegment -> AlignedSegment -> M unit :=
  write_pair write_stdout write_stderr.

(** * The generator [read_bam] *)

(** [read = bamiter.__next__(); total_reads += 1]: on an exhausted
    iterator [__next__] raises [StopIteration] and the counter is left
    as it is. *)
Definition next_read : M AlignedSegment := fun w =>
  match bamiter w with
  | [] => (Exc StopIteration, w)
  | read :: rest =>
      (Ok read, mkWorld rest (S (total_reads w)) (logfile w)
                        (fq1 w) (fq2 w) (stdout w) (stderr w))
  end.

(** [while cond(read): read = bamiter.__next__(); total_reads += 1],
    over the records left in the iterator and the counter. *)
Fixpoint skip_while (cond : AlignedSegment -> bool) (read : AlignedSegment)
    (rest : list AlignedSegment) (total : nat) {struct rest}
  : res AlignedSegment * (list AlignedSegment * nat) :=
  if cond read then
    match rest with
    | [] => (Exc StopIteration, ([], total))
    | read' :: rest' => skip_while cond read' rest' (S total)
    end
  else (Ok read, (rest, total)).

Definition skip (cond : AlignedSegment -> bool) (read : AlignedSegment)
  : M AlignedSegment := fun w =>
  let '(r, (rest, total)) :=
    skip_while cond read (bamiter w) (total_reads w) in
  (r, mkWorld rest total (logfile w) (fq1 w) (fq2 w) (stdout w) (stderr w)).

(** The conditions of the three skipping loops (lines 22, 27 and 37). *)
Definition not_mate1 (read : AlignedSegment) : bool :=
  (is_secondary read && negb (is_read1 read)) || flag_and read 2048.

Definition not_mate2 (read : AlignedSegment) : bool :=
  (is_secondary read && negb (is_read2 read)) || flag_and read 2048.

(** Where the generator is resumed from: its first line, or the [yield]
    it is suspended at. *)
Inductive gen_pos : Type := GenStart | GenYielded.

(** From the resumption point to the end of the first skipping loop:
    line 18 at the start, lines 35 to 39 after a [yield], then lines 22
    to 24.  [while read1:] never leaves the loop, a record being true. *)
Definition select_mate1 (g : gen_pos) : M AlignedSegment :=
  read1 <- match g with
           | GenStart => next_read
           | GenYielded => read1 <- next_read ;; skip is_secondary read1
           end ;;
  skip not_mate1 read1.

(** Lines 25 to 29. *)
Definition select_mate2 : M AlignedSegment :=
  read2 <- next_read ;;
  skip not_mate2 read2.

Definition select_mates (g : gen_pos) : M (AlignedSegment * AlignedSegment) :=
  read1 <- select_mate1 g ;;
  read2 <- select_mate2 ;;
  ret (read1, read2).

Definition mismatch_message (read1 read2 : AlignedSegment) : string :=
  "Read 1 query not equal to read 2 query" ++ nl
    ++ query_name read1 ++ nl ++ query_name read2.

(** Lines 30 to 33: the check of the names, then the [yield]. *)
Definition check_names (mates : AlignedSegment * AlignedSegment)
  : M (AlignedSegment * AlignedSegment) :=
  if negb (String.eqb (query_name (fst mates)) (query_name (snd mates)))
  then write_logfile (mismatch_message (fst mates) (snd mates)) ;;
       raise (ValueError [])
  else ret mates.

(** One resumption of the body of the generator: it runs to the next
    [yield], whose pair is the result, or an exception leaves the body.
    The body has no [return] and [while read1:] never ends: the body is
    left by the [ValueError] of line 32 or by the [StopIteration] of one
    of its six [__next__] calls on the exhausted iterator. *)
Definition resume (g : gen_pos) : M (AlignedSegment * AlignedSegment) :=
  mates <- select_mates g ;;
  check_names mates.

(** The sequence of pairs [read_bam] yields and the exception that
    leaves its body, with the state it leaves.  [None]: out of fuel. *)
Fixpoint read_bam_loop (fuel : nat) (g : gen_pos) (w : world)
  : option (list (AlignedSegment * AlignedSegment) * exn * world) :=
  match fuel with
  | O => None
  | S fuel' =>
      match resume g w with
      | (Exc e, w') => Some ([], e, w')
      | (Ok mates, w') =>
          match read_bam_loop fuel' GenYielded w' with
          | Some (pairs, e, w'') => Some (mates :: pairs, e, w'')
          | None => None
          end
      end
  end.

Definition read_bam (w : world)
  : option (list (AlignedSegment * AlignedSegment) * exn * world) :=
  read_bam_loop (S (List.length (bamiter w))) GenStart w.

(** * The driver [evaluate] *)

Record counters : Type := mkCounters {
  pair_count : nat;
  keep_count : nat;
  ambiguous_count : nat
}.

Definition print_it (fq1_is_None : bool)
  : AlignedSegment -> AlignedSegment -> M unit :=
  if fq1_is_None then print_fastq_to_pipes else print_fastq.

(** The body of the [for] loop, lines 123 to 139, on the pair numbered
    [pair_count c]. *)
Definition evaluate_body (fq1_is_None : bool) (mm : Z) (stype : string)
    (mates : AlignedSegment * AlignedSegment) (c : counters) : M counters :=
  if negb (is_unmapped (fst mates) && is_unmapped (snd mates)) then
    if both_mapped (fst mates) (snd mates)
       && mated (fst mates) (snd mates) stype
       && perfect_alignments (fst mates) (snd mates) mm
    then ret c
    else
      print_it fq1_is_None (fst mates) (snd mates) ;;
      ret (mkCounters (pair_count c) (keep_count c) (S (ambiguous_count c)))
  else
    print_it fq1_is_None (fst mates) (snd mates) ;;
    ret (mkCounters (pair_count c) (S (keep_count c)) (ambiguous_count c)).

(** What the [__next__] of a generator object gives its caller: the
    pair of a [yield], the end of the iteration when the body returns,
    or an exception. *)
Inductive signal : Type :=
| Yielded (mates : AlignedSegment * AlignedSegment)
| Returned
| Raised (e : exn).

(** The error into which the interpreter turns a [StopIteration] that
    leaves the body of a generator (PEP 479, Python 3.7 and later). *)
Definition stop_in_generator : exn :=
  RuntimeError ["generator raised StopIteration"].

(** [__next__] of the generator object of [read_bam]: the body is
    resumed; a [StopIteration] that leaves it reaches the caller as
    [RuntimeError], any other exception as it is.  The body never
    returns, so the iteration never ends by [Returned]. *)
Definition generator_next (g : gen_pos) (w : world) : signal * world :=
  match resume g w with
  | (Ok mates, w') => (Yielded mates, w')
  | (Exc StopIteration, w') => (Raised stop_in_generator, w')
  | (Exc e, w') => (Raised e, w')
  end.

(** [for pair_count, pair in enumerate(read_bam(bam), start=1)]: the
    generator is advanced; a pair is numbered, then handled; the loop
    ends when the generator returns, and an exception leaves
    [evaluate]. *)
Fixpoint evaluate_loop (fuel : nat) (fq1_is_None : bool) (mm : Z)
    (stype : string) (g : gen_pos) (c : counters) (w : world)
  : option (res counters * world) :=
  match fuel with
  | O => None
  | S fuel' =>
      match generator_next g w with
      | (Returned, w') => Some (Ok c, w')
      | (Raised e, w') => Some (Exc e, w')
      | (Yielded mates, w') =>
          let c1 := mkCounters (S (pair_count c)) (keep_count c)
                               (ambiguous_count c) in
          match evaluate_body fq1_is_None mm stype mates c1 w' with
          | (Ok c', w'') =>
              evaluate_loop fuel' fq1_is_None mm stype GenYielded c' w''
          | (Exc e, w'') => Some (Exc e, w'')
          end
      end
  end.

Definition evaluate (fq1_is_None : bool) (mm : Z) (stype : string) (w : world)
  : option (res counters * world) :=
  evaluate_loop (S (List.length (bamiter w))) fq1_is_None mm stype GenStart
                (mkCounters 0 0 0) w.

(** * Vocabulary of the statements *)

(** The first symbol of [s] that is no key of [code], if any. *)
Fixpoint first_bad (s : string) : option ascii :=
  match s with
  | EmptyString => None
  | String c s' => if is_base c then first_bad s' else Some c
  end.

(** The sequence and quality a printer writes for a record. *)
Definition oriented (read : AlignedSegment) : res (string * string) :=
  normalize (seq read) (qual read) (is_reverse read).

(** A record carries neither edit-distance tag. *)
Definition untagged (read : AlignedSegment) : Prop :=
  get_tag read "NM" = None /\ get_tag read "nM" = None.

(** A record carries the tag [name] and not the tag [other]. *)
Definition only_tag (name other : string) (read : AlignedSegment) : Prop :=
  get_tag read name <> None /\ get_tag read other = None.

(** The state after one FASTQ record went to each destination of the
    printer in use. *)
Definition emit (fq1_is_None : bool) (rec1 rec2 : string) (w : world) : world :=
  if fq1_is_None
  then mkWorld (bamiter w) (total_reads w) (logfile w)
               (fq1 w) (fq2 w) (stdout w ++ rec1) (stderr w ++ rec2)
  else mkWorld (bamiter w) (total_reads w) (logfile w)
               (fq1 w ++ rec1) (fq2 w ++ rec2) (stdout w) (stderr w).

(** The state [w] with the four destinations of [o]. *)
Definition set_outputs (o w : world) : world :=
  mkWorld (bamiter w) (total_reads w) (logfile w)
          (fq1 o) (fq2 o) (stdout o) (stderr o).

(** The state [w] after [s] was appended to the log. *)
Definition logged (s : string) (w : world) : world :=
  mkWorld (bamiter w) (total_reads w) (logfile w ++ s)
          (fq1 w) (fq2 w) (stdout w) (stderr w).

(** A run that has read nothing yet from the records [l]. *)
Definition start (l : list AlignedSegment) : world :=
  mkWorld l 0 "" "" "" "" "".

(** The names agree and both records come from [l]. *)
Definition paired_from (l : list AlignedSegment)
    (mates : AlignedSegment * AlignedSegment) : Prop :=
  query_name (fst mates) = query_name (snd mates)
  /\ In (fst mates) l /\ In (snd mates) l.

(** [w'] is [w] after the records [pre] were taken from the iterator and
    counted, everything else untouched. *)
Definition advances (w w' : world) (pre : list AlignedSegment) : Prop :=
  bamiter w = (pre ++ bamiter w')%list
  /\ total_reads w' = (total_reads w + List.length pre)%nat
  /\ logfile w' = logfile w
  /\ fq1 w' = fq1 w /\ fq2 w' = fq2 w
  /\ stdout w' = stdout w /\ stderr w' = stderr w.

(** A computation that only pulls records: it succeeds having read
    [pre] with [Q] of its result, or it stops on the exhausted iterator. *)
Definition pulls {A : Type} (m : M A)
    (Q : A -> list AlignedSegment -> Prop) : Prop :=
  forall w,
    match m w with
    | (Ok a, w') => exists pre, advances w w' pre /\ Q a pre
    | (Exc e, w') =>
        e = StopIteration /\ bamiter w' = [] /\ exists pre, advances w w' pre
    end.

(** The four destinations are as they were. *)
Definition same_outputs (w w' : world) : Prop :=
  fq1 w' = fq1 w /\ fq2 w' = fq2 w
  /\ stdout w' = stdout w /\ stderr w' = stderr w.

(** The iterator, the counter and the log are as they were. *)
Definition same_inputs (w w' : world) : Prop :=
  bamiter w' = bamiter w /\ total_reads w' = total_reads w
  /\ logfile w' = logfile w.

(** The run from [w] read every record and logged nothing. *)
Definition clean_end (w w' : world) : Prop :=
  bamiter w' = []
  /\ total_reads w' = (total_reads w + List.length (bamiter w))%nat
  /\ logfile w' = logfile w.

(** The run from [w] stopped on two records of different names, which
    it logged. *)
Definition mismatch_end (w w' : world) : Prop :=
  exists r1 r2,
    In r1 (bamiter w) /\ In r2 (bamiter w)
    /\ query_name r1 <> query_name r2
    /\ logfile w' = logfile w ++ mismatch_message r1 r2.

(** A computation that neither reads nor writes the destinations. *)
Definition input_only {A : Type} (m : M A) : Prop :=
  forall o w, m (set_outputs o w) = (fst (m w), set_outputs o (snd (m w))).

(** A computation that leaves iterator, counter and log alone and fails
    with [KeyError] if it fails. *)
Definition output_only {A : Type} (m : M A) : Prop :=
  forall w,
    same_inputs w (snd (m w))
    /\ forall e, fst (m w) = Exc e -> exists k, e = KeyError k.

(** ** Sample records *)

(** First mate, mapped forward on reference 0 without mismatch. *)
Definition fwd_mate1 : AlignedSegment :=
  mkRead "frag1" 65 0 100 [(0, 4)] [("NM", 0)] "AACG" "!!#!".

(** Its second mate, mapped on the reverse strand. *)
Definition rev_mate2 : AlignedSegment :=
  mkRead "frag1" 145 0 (-100) [(0, 4)] [("NM", 0)] "CGTT" "!#!!".

(** A second mate whose flag has the unmapped bit (1 + 4 + 128) while
    the record keeps the placement, CIGAR and tag the aligner computed. *)
Definition flagged_mate2 : AlignedSegment :=
  mkRead "frag1" 133 0 (-100) [(0, 4)] [("NM", 0)] "AACG" "!!#!".

(** An unmapped pair as aligners write it: no reference, no CIGAR, no
    tag (flags 1 + 4 + 8 + 64 and 1 + 4 + 8 + 128). *)
Definition lost_mate1 : AlignedSegment :=
  mkRead "frag2" 77 (-1) 0 [] [] "AACG" "!!#!".

Definition lost_mate2 : AlignedSegment :=
  mkRead "frag2" 141 (-1) 0 [] [] "GGTA" "#!!!".

(** An unmapped pair whose records carry one edit-distance tag each,
    under the two different names. *)
Definition lost_mate1_NM : AlignedSegment :=
  mkRead "frag3" 77 (-1) 0 [] [("NM", 0)] "AACG" "!!#!".

Definition lost_mate2_nM : AlignedSegment :=
  mkRead "frag3" 141 (-1) 0 [] [("nM", 0)] "GGTA" "#!!!".

(** A mapped pair with one tag each under the two names. *)
Definition bwa_mate1 : AlignedSegment :=
  mkRead "frag4" 65 0 100 [(0, 4)] [("NM", 0)] "AACG" "!!#!".

Definition star_mate2 : AlignedSegment :=
  mkRead "frag4" 129 0 (-100) [(0, 4)] [("nM", 0)] "GGTA" "#!!!".

(** A mapped pair without any tag, both CIGARs one full-length match. *)
Definition bare_mate1 : AlignedSegment :=
  mkRead "frag5" 65 0 100 [(0, 4)] [] "AACG" "!!#!".

Definition bare_mate2 : AlignedSegment :=
  mkRead "frag5" 129 0 (-100) [(0, 4)] [] "GGTA" "#!!!".

(** A first mate of another fragment. *)
Definition other_mate2 : AlignedSegment :=
  mkRead "frag6" 129 0 (-100) [(0, 4)] [("NM", 0)] "GGTA" "#!!!".

(** ** Vocabulary of the statements on a whole run *)

(** The pair is printed, in either counter. *)
Definition kept (mm : Z) (stype : string)
    (mates : AlignedSegment * AlignedSegment) : bool :=
  match classify (fst mates) (snd mates) mm stype with
  | Discard => false
  | _ => true
  end.

(** The FASTQ records a printer writes for a pair, one per destination,
    or the exception of the first record that cannot be oriented. *)
Definition render_pair (mates : AlignedSegment * AlignedSegment)
  : res (string * string) :=
  match oriented (fst mates) with
  | Exc e => Exc e
  | Ok cur1 =>
      match oriented (snd mates) with
      | Exc e => Exc e
      | Ok cur2 =>
          Ok (fastq_record (query_name (fst mates)) (fst cur1) (snd cur1),
              fastq_record (query_name (snd mates)) (fst cur2) (snd cur2))
      end
  end.

(** The text a list of pairs adds to each destination: the records of
    the kept pairs in order; it fails with the first failing pair. *)
Fixpoint render (mm : Z) (stype : string)
    (pairs : list (AlignedSegment * AlignedSegment))
  : res (string * string) :=
  match pairs with
  | [] => Ok (EmptyString, EmptyString)
  | mates :: rest =>
      if kept mm stype mates then
        match render_pair mates with
        | Exc e => Exc e
        | Ok (a1, a2) =>
            match render mm stype rest with
            | Exc e => Exc e
            | Ok (t1, t2) => Ok (a1 ++ t1, a2 ++ t2)
            end
        end
      else render mm stype rest
  end.

(** The counters after the body of the loop handled one more pair. *)
Definition tally_pair (mm : Z) (stype : string)
    (mates : AlignedSegment * AlignedSegment) (c : counters) : counters :=
  match classify (fst mates) (snd mates) mm stype with
  | Discard =>
      mkCounters (S (pair_count c)) (keep_count c) (ambiguous_count c)
  | KeepUnmapped =>
      mkCounters (S (pair_count c)) (S (keep_count c)) (ambiguous_count c)
  | KeepAmbiguous =>
      mkCounters (S (pair_count c)) (keep_count c) (S (ambiguous_count c))
  end.

(** The exception [evaluate] ends with when the body of the generator
    is left by [e]. *)
Definition finish (e : exn) : exn :=
  match e with
  | StopIteration => stop_in_generator
  | _ => e
  end.

(** The destinations of [w'] are those of [w] with text appended to the
    two in use and the other two untouched. *)
Definition appended (fq1_is_None : bool) (w w' : world) : Prop :=
  exists t1 t2, same_outputs (emit fq1_is_None t1 t2 w) w'.

(** Consecutive records two by two; a last single record is left out. *)
Fixpoint pair_up (l : list AlignedSegment)
  : list (AlignedSegment * AlignedSegment) :=
  match l with
  | a :: b :: rest => (a, b) :: pair_up rest
  | _ => []
  end.

(** Neither a secondary nor a supplementary alignment. *)
Definition is_primary (read : AlignedSegment) : bool :=
  negb (is_secondary read) && negb (flag_and read 2048).

(** The number of line ends in a text. *)
Fixpoint count_nl (s : string) : nat :=
  match s with
  | EmptyString => O
  | String c s' => ((if Ascii.eqb c "010" then 1 else 0) + count_nl s')%nat
  end.

(** More sample records: a second mate with an ambiguity code, mapped
    on the reverse strand, and a supplementary alignment. *)
Definition iupac_mate2 : AlignedSegment :=
  mkRead "frag1" 145 0 (-100) [(0, 3); (4, 1)] [("NM", 1)] "CGRT" "!#!!".

Definition supp_mate1 : AlignedSegment :=
  mkRead "frag1" 2113 3 0 [(5, 2); (0, 2)] [("NM", 0)] "CG" "!#".

(** An unmapped pair whose first record has the reverse flag
    (1 + 4 + 8 + 16 + 64) and an ambiguity code in its sequence. *)
Definition lost_rev_mate1 : AlignedSegment :=
  mkRead "frag7" 93 (-1) 0 [] [] "AARG" "!!#!".

Definition lost_rev_mate2 : AlignedSegment :=
  mkRead "frag7" 141 (-1) 0 [] [] "GGTA" "#!!!".

(** The text of a FASTQ record, character by character. *)
Definition four_lines (name cur_seq cur_qual : string) : string :=
  String "@"
    (name ++ String "010"
       (cur_seq ++ String "010"
          (String "+" (String "010" (cur_qual ++ String "010" ""))))).

(** * Strings *)

Lemma append_empty_r (s : string) : s ++ "" = s.
Proof.
  induction s as [|c s IH]; simpl; [reflexivity | now rewrite IH].
Qed.

Lemma append_assoc (s t u : string) : (s ++ t) ++ u = s ++ (t ++ u).
Proof.
  induction s as [|c s IH]; simpl; [reflexivity | now rewrite IH].
Qed.

Lemma string_rev_append (s t : string) :
  string_rev (s ++ t) = string_rev t ++ string_rev s.
Proof.
  induction s as [|c s IH]; simpl.
  - now rewrite append_empty_r.
  - now rewrite IH, append_assoc.
Qed.

Lemma string_rev_involutive (s : string) : string_rev (string_rev s) = s.
Proof.
  induction s as [|c s IH]; simpl; [reflexivity|].
  now rewrite string_rev_append, IH.
Qed.

Lemma string_map_append (f : ascii -> ascii) (s t : string) :
  string_map f (s ++ t) = string_map f s ++ string_map f t.
Proof.
  induction s as [|c s IH]; simpl; [reflexivity | now rewrite IH].
Qed.

Lemma string_map_rev (f : ascii -> ascii) (s : string) :
  string_map f (string_rev s) = string_rev (string_map f s).
Proof.
  induction s as [|c s IH]; simpl; [reflexivity|].
  now rewrite string_map_append, IH.
Qed.

(** * The complement table *)

Lemma is_base_cases (c : ascii) :
  is_base c = true ->
  (c = "A" \/ c = "T" \/ c = "C" \/ c = "G" \/ c = "N")%char.
Proof.
  unfold is_base, code, code_table; cbn [lookup_code].
  repeat match goal with
         | |- context [Ascii.eqb ?k c] =>
             destruct (Ascii.eqb_spec k c) as [<-|_]; [tauto|]
         end.
  discriminate.
Qed.

Lemma complement_is_base (c : ascii) :
  is_base c = true -> is_base (complement c) = true.
Proof.
  intros H. destruct (is_base_cases c H) as [->|[->|[->|[->| ->]]]];
    reflexivity.
Qed.

Lemma complement_involutive (c : ascii) :
  is_base c = true -> complement (complement c) = c.
Proof.
  intros H. destruct (is_base_cases c H) as [->|[->|[->|[->| ->]]]];
    reflexivity.
Qed.

Lemma code_complement (c : ascii) :
  is_base c = true -> code c = Some (complement c).
Proof.
  unfold is_base, complement. now destruct (code c).
Qed.

Lemma bases_first_bad (s : string) : bases s = true <-> first_bad s = None.
Proof.
  induction s as [|c s IH]; simpl; [tauto|].
  destruct (is_base c); simpl; [exact IH | split; discriminate].
Qed.

Lemma bases_append (s t : string) :
  bases (s ++ t) = bases s && bases t.
Proof.
  induction s as [|c s IH]; simpl; [reflexivity|].
  now rewrite IH, andb_assoc.
Qed.

Lemma bases_rev (s : string) : bases (string_rev s) = bases s.
Proof.
  induction s as [|c s IH]; simpl; [reflexivity|].
  rewrite bases_append, IH; simpl.
  now rewrite andb_true_r, andb_comm.
Qed.

Lemma bases_complement (s : string) :
  bases s = true -> bases (string_map complement s) = true.
Proof.
  induction s as [|c s IH]; simpl; [reflexivity|].
  intros [Hc Hs]%andb_prop.
  now rewrite (complement_is_base c Hc), (IH Hs).
Qed.

Lemma complement_map_involutive (s : string) :
  bases s = true -> string_map complement (string_map complement s) = s.
Proof.
  induction s as [|c s IH]; simpl; [reflexivity|].
  intros [Hc Hs]%andb_prop.
  now rewrite (complement_involutive c Hc), (IH Hs).
Qed.

(** * [rev_comp] *)

(** The loop appends the complements to what it was given, or stops at
    the first symbol without an entry. *)
Lemma rev_comp_loop_spec (s acc : string) :
  rev_comp_loop s acc =
  match first_bad s with
  | None => Ok (acc ++ string_map complement s)
  | Some c => Exc (KeyError c)
  end.
Proof.
  revert acc. induction s as [|c s IH]; intros acc; simpl.
  - now rewrite append_empty_r.
  - unfold is_base, complement. destruct (code c) as [d|]; [|reflexivity].
    rewrite IH. destruct (first_bad s); [reflexivity|].
    now rewrite append_assoc.
Qed.

Lemma rev_comp_spec (s q : string) :
  rev_comp s q =
  match first_bad s with
  | None => Ok (string_rev (string_map complement s), string_rev q)
  | Some c => Exc (KeyError c)
  end.
Proof.
  unfold rev_comp. rewrite rev_comp_loop_spec.
  now destruct (first_bad s).
Qed.

Lemma rev_comp_bases (s q : string) :
  bases s = true ->
  rev_comp s q = Ok (string_rev (string_map complement s), string_rev q).
Proof.
  intros H%bases_first_bad. now rewrite rev_comp_spec, H.
Qed.

(** C5: for every sequence over the alphabet A, T, C, G, N and every
    quality string (of the same length or not), normalising with
    [is_reverse] true succeeds, and normalising its result again with
    [is_reverse] true gives back the original sequence and quality. *)
Theorem normalize_involutive (sequence quality : string) :
  bases sequence = true ->
  exists s' q',
    normalize sequence quality true = Ok (s', q')
    /\ normalize s' q' true = Ok (sequence, quality).
Proof.
  intros H.
  exists (string_rev (string_map complement sequence)), (string_rev quality).
  unfold normalize. split; [now apply rev_comp_bases|].
  rewrite rev_comp_bases.
  - rewrite string_map_rev, !string_rev_involutive.
    now rewrite complement_map_involutive.
  - rewrite bases_rev. now apply bases_complement.
Qed.

Lemma normalize_involutive_sample :
  bases "GATTNACA" = true
  /\ exists s' q',
       normalize "GATTNACA" "!#$%&'()" true = Ok (s', q')
       /\ normalize s' q' true = Ok ("GATTNACA", "!#$%&'()").
Proof.
  split; [reflexivity|].
  apply (normalize_involutive "GATTNACA" "!#$%&'()"). reflexivity.
Defined.

(** C6: [normalize] returns its input when [is_reverse] is false; when it
    is true, each base is replaced through the table A<->T, C<->G, N<->N
    and both strings are reversed, the quality being reversed and nothing
    else (a symbol outside the table raises [KeyError]); "AACG" with
    quality "!!#!" gives "CGTT" and "!#!!". *)
Theorem normalize_spec :
  (forall s q, normalize s q false = Ok (s, q))
  /\ (forall s q,
        normalize s q true =
        match first_bad s with
        | None => Ok (string_rev (string_map complement s), string_rev q)
        | Some c => Exc (KeyError c)
        end)
  /\ (forall s, first_bad s = None <-> bases s = true)
  /\ (forall c, is_base c = true <->
                (c = "A" \/ c = "T" \/ c = "C" \/ c = "G" \/ c = "N")%char)
  /\ (complement "A" = "T" /\ complement "T" = "A" /\ complement "C" = "G"
      /\ complement "G" = "C" /\ complement "N" = "N")%char
  /\ normalize "AACG" "!!#!" true = Ok ("CGTT", "!#!!").
Proof.
  split; [reflexivity|].
  split; [intros s q; apply rev_comp_spec|].
  split; [intros s; symmetry; apply bases_first_bad|].
  split; [|split; [repeat split | reflexivity]].
  intros c; split; [apply is_base_cases|].
  intros [->|[->|[->|[->| ->]]]]; reflexivity.
Qed.

(** * Classification *)

Lemma evaluate_body_classify (p : bool) (mm : Z) (stype : string)
    (r1 r2 : AlignedSegment) (c : counters) :
  evaluate_body p mm stype (r1, r2) c =
  match classify r1 r2 mm stype with
  | Discard => ret c
  | KeepAmbiguous =>
      print_it p r1 r2 ;;
      ret (mkCounters (pair_count c) (keep_count c) (S (ambiguous_count c)))
  | KeepUnmapped =>
      print_it p r1 r2 ;;
      ret (mkCounters (pair_count c) (S (keep_count c)) (ambiguous_count c))
  end.
Proof.
  unfold evaluate_body, classify; simpl fst; simpl snd.
  destruct (negb (is_unmapped r1 && is_unmapped r2)); [|reflexivity].
  now destruct (both_mapped r1 r2 && mated r1 r2 stype
                && perfect_alignments r1 r2 mm).
Qed.

(** A printer whose two records can be oriented writes one FASTQ record
    to each of its destinations. *)
Lemma print_it_ok (p : bool) (r1 r2 : AlignedSegment)
    (cur1 cur2 : string * string) (w : world) :
  oriented r1 = Ok cur1 -> oriented r2 = Ok cur2 ->
  print_it p r1 r2 w =
  (Ok tt, emit p (fastq_record (query_name r1) (fst cur1) (snd cur1))
                 (fastq_record (query_name r2) (fst cur2) (snd cur2)) w).
Proof.
  unfold oriented. intros H1 H2.
  destruct p; unfold print_it, print_fastq, print_fastq_to_pipes, write_pair,
    bind, lift; rewrite H1; cbn; rewrite H2; reflexivity.
Qed.

(** A record that is not reverse-complemented, or whose sequence is over
    the alphabet, can be oriented. *)
Lemma oriented_ok (read : AlignedSegment) :
  is_reverse read = false \/ bases (seq read) = true ->
  exists cur, oriented read = Ok cur.
Proof.
  unfold oriented, normalize. intros [H|H].
  - rewrite H. eauto.
  - destruct (is_reverse read); [|eauto].
    rewrite (rev_comp_bases _ _ H). eauto.
Qed.

Lemma mated_DNA (r1 r2 : AlignedSegment) :
  mated r1 r2 "DNA" = true <->
  rname r1 = rname r2 /\ Z.abs (isize r1) < 500.
Proof.
  unfold mated, window; simpl.
  rewrite andb_true_iff, Z.eqb_eq, Z.ltb_lt. tauto.
Qed.

Lemma mated_other (r1 r2 : AlignedSegment) (stype : string) :
  stype <> "DNA" ->
  (mated r1 r2 stype = true <-> rname r1 = rname r2).
Proof.
  intros H%String.eqb_neq. unfold mated. rewrite H. apply Z.eqb_eq.
Qed.

(** With exactly one record flagged unmapped, the pair is never counted
    in [keep_count]; what is left of the test is [mated] and
    [perfect_alignments]. *)
Lemma half_mapped_outcome (r1 r2 : AlignedSegment) (mm : Z) (stype : string) :
  is_unmapped r1 <> is_unmapped r2 ->
  classify r1 r2 mm stype =
  if mated r1 r2 stype && perfect_alignments r1 r2 mm
  then Discard else KeepAmbiguous.
Proof.
  unfold classify, both_mapped.
  destruct (is_unmapped r1), (is_unmapped r2); simpl; congruence.
Qed.

Lemma try_tags_some (name : string) (r1 r2 : AlignedSegment) :
  try_tags name r1 r2 <> None <->
  get_tag r1 name <> None /\ get_tag r2 name <> None.
Proof.
  unfold try_tags.
  destruct (get_tag r1 name), (get_tag r2 name); split;
    try congruence; try tauto; intros; split; congruence.
Qed.

(** The lookup of the edit distances succeeds exactly when one of the
    two names is carried by both records. *)
Lemma edit_tags_some (r1 r2 : AlignedSegment) :
  edit_tags r1 r2 <> None <->
  (get_tag r1 "NM" <> None /\ get_tag r2 "NM" <> None)
  \/ (get_tag r1 "nM" <> None /\ get_tag r2 "nM" <> None).
Proof.
  rewrite <- !try_tags_some. unfold edit_tags.
  destruct (try_tags "NM" r1 r2) as [e|].
  - split; intros _; [left|]; discriminate.
  - split; [intros H; now right | intros [H|H]; [congruence | exact H]].
Qed.

Lemma perfect_alignments_needs_tags (r1 r2 : AlignedSegment) (mm : Z) :
  edit_tags r1 r2 = None -> perfect_alignments r1 r2 mm = false.
Proof.
  unfold perfect_alignments. now intros ->.
Qed.

(** Without perfect alignments a pair is kept, in the counter that the
    unmapped flags select. *)
Lemma not_perfect_kept (p : bool) (r1 r2 : AlignedSegment) (mm : Z)
    (stype : string) :
  perfect_alignments r1 r2 mm = false ->
  classify r1 r2 mm stype =
    (if is_unmapped r1 && is_unmapped r2 then KeepUnmapped
     else KeepAmbiguous)
  /\ classify r1 r2 mm stype <> Discard
  /\ forall c,
       evaluate_body p mm stype (r1, r2) c =
       (print_it p r1 r2 ;;
        ret (if is_unmapped r1 && is_unmapped r2
             then mkCounters (pair_count c) (S (keep_count c))
                             (ambiguous_count c)
             else mkCounters (pair_count c) (keep_count c)
                             (S (ambiguous_count c)))).
Proof.
  intros H.
  assert (Hc : classify r1 r2 mm stype =
               if is_unmapped r1 && is_unmapped r2 then KeepUnmapped
               else KeepAmbiguous).
  { unfold classify. rewrite H, andb_false_r.
    now destruct (is_unmapped r1 && is_unmapped r2). }
  split; [exact Hc|]. split.
  - rewrite Hc. now destruct (is_unmapped r1 && is_unmapped r2).
  - intros c. rewrite evaluate_body_classify, Hc.
    now destruct (is_unmapped r1 && is_unmapped r2).
Qed.

(** C1, at an input where the code departs from it: a pair whose first
    record is mapped and whose second record has the unmapped flag, both
    on reference 0 with a one-operation match CIGAR and NM = 0.
    [both_mapped] is true of it, the pair takes the [pass] branch for
    DNA and for RNA: the generator yields the pair and the body of the
    loop writes nothing and moves neither counter of kept pairs. *)
Theorem flagged_mate_discarded :
  is_unmapped fwd_mate1 = false
  /\ is_unmapped flagged_mate2 = true
  /\ both_mapped fwd_mate1 flagged_mate2 = true
  /\ classify fwd_mate1 flagged_mate2 0 "DNA" = Discard
  /\ classify fwd_mate1 flagged_mate2 0 "RNA" = Discard
  /\ read_bam (start [fwd_mate1; flagged_mate2]) =
     Some ([(fwd_mate1, flagged_mate2)], StopIteration,
           mkWorld [] 2 "" "" "" "" "")
  /\ evaluate_body false 0 "DNA" (fwd_mate1, flagged_mate2)
       (mkCounters 1 0 0) (mkWorld [] 2 "" "" "" "" "") =
     (Ok (mkCounters 1 0 0), mkWorld [] 2 "" "" "" "" "").
Proof.
  repeat split.
Qed.

(** C3: for DNA and two records on the same reference, [mated] holds
    exactly when the absolute insert size of the first record is below
    500; at 499 a pair that is not unmapped is discarded exactly when its
    alignments are perfect, at 500 (and above) it is never discarded.
    For RNA [mated] holds exactly when the references are equal,
    whatever the insert size. *)
Theorem mated_window (r1 r2 : AlignedSegment) :
  (rname r1 = rname r2 ->
     (mated r1 r2 "DNA" = true <-> Z.abs (isize r1) < 500)
     /\ (forall mm,
           Z.abs (isize r1) = 499 ->
           is_unmapped r1 && is_unmapped r2 = false ->
           (classify r1 r2 mm "DNA" = Discard <->
            perfect_alignments r1 r2 mm = true))
     /\ (forall mm,
           500 <= Z.abs (isize r1) -> classify r1 r2 mm "DNA" <> Discard))
  /\ (mated r1 r2 "RNA" = true <-> rname r1 = rname r2).
Proof.
  split; [|apply mated_other; discriminate].
  intros Hr. split; [|split].
  - rewrite mated_DNA. tauto.
  - intros mm Hi Hu.
    assert (Hm : mated r1 r2 "DNA" = true) by (apply mated_DNA; lia).
    unfold classify, both_mapped. rewrite Hu, Hm; simpl.
    destruct (perfect_alignments r1 r2 mm); split; congruence.
  - intros mm Hi.
    assert (Hm : mated r1 r2 "DNA" = false).
    { apply not_true_is_false. rewrite mated_DNA. lia. }
    unfold classify. rewrite Hm, andb_false_r; simpl.
    now destruct (negb (is_unmapped r1 && is_unmapped r2)).
Qed.

Lemma mated_window_sample :
  rname fwd_mate1 = rname rev_mate2
  /\ (mated fwd_mate1 rev_mate2 "DNA" = true <->
      Z.abs (isize fwd_mate1) < 500).
Proof.
  split; [reflexivity|].
  apply (proj1 (mated_window fwd_mate1 rev_mate2)). reflexivity.
Defined.

(** C4 fails as stated on an ordinary unmapped pair: neither record has
    a tag and the pair is counted in [keep_count], not in
    [ambiguous_count]. *)
Lemma untagged_unmapped_pair_kept_unmapped :
  untagged lost_mate1 /\ untagged lost_mate2
  /\ classify lost_mate1 lost_mate2 0 "DNA" <> KeepAmbiguous
  /\ evaluate_body false 0 "DNA" (lost_mate1, lost_mate2)
       (mkCounters 1 0 0) (mkWorld [] 2 "" "" "" "" "") =
     (Ok (mkCounters 1 1 0),
      mkWorld [] 2 ""
              (fastq_record "frag2" "AACG" "!!#!")
              (fastq_record "frag2" "GGTA" "#!!!") "" "").
Proof.
  repeat split; discriminate.
Qed.

(** C4, amended: when neither record carries NM or nM,
    [perfect_alignments] is false, whatever the CIGARs; no error is
    raised by the missing tags, and the pair is never discarded: it is
    [KeepUnmapped] when both records are unmapped and [KeepAmbiguous]
    otherwise, the loop body being the printer and the increment of the
    matching counter. *)
Theorem untagged_never_discarded (r1 r2 : AlignedSegment) (mm : Z)
    (stype : string) :
  untagged r1 -> untagged r2 ->
  perfect_alignments r1 r2 mm = false
  /\ classify r1 r2 mm stype =
     (if is_unmapped r1 && is_unmapped r2 then KeepUnmapped
      else KeepAmbiguous)
  /\ classify r1 r2 mm stype <> Discard
  /\ forall p c,
       evaluate_body p mm stype (r1, r2) c =
       (print_it p r1 r2 ;;
        ret (if is_unmapped r1 && is_unmapped r2
             then mkCounters (pair_count c) (S (keep_count c))
                             (ambiguous_count c)
             else mkCounters (pair_count c) (keep_count c)
                             (S (ambiguous_count c)))).
Proof.
  intros [H1 H1'] [H2 H2'].
  assert (Hp : perfect_alignments r1 r2 mm = false).
  { apply perfect_alignments_needs_tags.
    unfold edit_tags, try_tags. now rewrite H1, H1'. }
  split; [exact Hp|].
  split; [apply (not_perfect_kept true _ _ _ _ Hp)|].
  split; [apply (not_perfect_kept true _ _ _ _ Hp)|].
  intros p. now apply not_perfect_kept.
Qed.

Lemma untagged_never_discarded_sample :
  untagged bare_mate1 /\ untagged bare_mate2
  /\ single_match bare_mate1 = true /\ single_match bare_mate2 = true
  /\ perfect_alignments bare_mate1 bare_mate2 0 = false
  /\ classify bare_mate1 bare_mate2 0 "DNA" = KeepAmbiguous.
Proof.
  split; [split; reflexivity|]. split; [split; reflexivity|].
  split; [reflexivity|]. split; [reflexivity|].
  pose proof (untagged_never_discarded bare_mate1 bare_mate2 0 "DNA"
                (conj eq_refl eq_refl) (conj eq_refl eq_refl)) as H.
  split; [exact (proj1 H) | exact (proj1 (proj2 H))].
Defined.

(** C10 fails as stated on an unmapped pair that carries NM on one
    record and nM on the other: it is counted in [keep_count]. *)
Lemma mixed_tags_unmapped_pair_kept_unmapped :
  only_tag "NM" "nM" lost_mate1_NM /\ only_tag "nM" "NM" lost_mate2_nM
  /\ classify lost_mate1_NM lost_mate2_nM 0 "DNA" <> KeepAmbiguous
  /\ evaluate_body false 0 "DNA" (lost_mate1_NM, lost_mate2_nM)
       (mkCounters 1 0 0) (mkWorld [] 2 "" "" "" "" "") =
     (Ok (mkCounters 1 1 0),
      mkWorld [] 2 ""
              (fastq_record "frag3" "AACG" "!!#!")
              (fastq_record "frag3" "GGTA" "#!!!") "" "").
Proof.
  repeat split; discriminate.
Qed.

(** C10, amended: when one record carries only NM and its mate only nM,
    [perfect_alignments] is false and the pair is never discarded: it is
    [KeepAmbiguous] unless both records are unmapped, where it is
    [KeepUnmapped].  The lookup of the edit distances succeeds exactly
    when both records carry NM or both carry nM. *)
Theorem mixed_tag_names_not_perfect (r1 r2 : AlignedSegment) (mm : Z)
    (stype : string) :
  (only_tag "NM" "nM" r1 /\ only_tag "nM" "NM" r2)
  \/ (only_tag "nM" "NM" r1 /\ only_tag "NM" "nM" r2) ->
  perfect_alignments r1 r2 mm = false
  /\ classify r1 r2 mm stype =
     (if is_unmapped r1 && is_unmapped r2 then KeepUnmapped
      else KeepAmbiguous)
  /\ classify r1 r2 mm stype <> Discard
  /\ (forall a b,
        edit_tags a b <> None <->
        (get_tag a "NM" <> None /\ get_tag b "NM" <> None)
        \/ (get_tag a "nM" <> None /\ get_tag b "nM" <> None)).
Proof.
  intros H.
  assert (Hp : perfect_alignments r1 r2 mm = false).
  { apply perfect_alignments_needs_tags.
    destruct (edit_tags r1 r2) eqn:E; [|reflexivity].
    assert (Hs : edit_tags r1 r2 <> None) by congruence.
    apply edit_tags_some in Hs. unfold only_tag in H. tauto. }
  split; [exact Hp|].
  split; [apply (not_perfect_kept true _ _ _ _ Hp)|].
  split; [apply (not_perfect_kept true _ _ _ _ Hp)|].
  apply edit_tags_some.
Qed.

Lemma mixed_tag_names_sample :
  (only_tag "NM" "nM" bwa_mate1 /\ only_tag "nM" "NM" star_mate2)
  /\ perfect_alignments bwa_mate1 star_mate2 0 = false
  /\ classify bwa_mate1 star_mate2 0 "DNA" = KeepAmbiguous.
Proof.
  assert (H : only_tag "NM" "nM" bwa_mate1 /\ only_tag "nM" "NM" star_mate2).
  { repeat split; discriminate. }
  split; [exact H|].
  pose proof (mixed_tag_names_not_perfect bwa_mate1 star_mate2 0 "DNA"
                (or_introl H)) as R.
  split; [exact (proj1 R) | exact (proj1 (proj2 R))].
Defined.

(** * The generator: what a resumption reads *)

Lemma advances_refl (w : world) : advances w w [].
Proof.
  unfold advances; simpl. rewrite Nat.add_0_r. tauto.
Qed.

Lemma advances_trans (w w1 w2 : world) (p1 p2 : list AlignedSegment) :
  advances w w1 p1 -> advances w1 w2 p2 -> advances w w2 (p1 ++ p2).
Proof.
  unfold advances.
  intros (Hb & Ht & Hl & H1 & H2 & H3 & H4)
         (Hb' & Ht' & Hl' & H1' & H2' & H3' & H4').
  rewrite Hb, Hb', Ht', Ht, Hl', H1', H2', H3', H4', length_app.
  rewrite <- app_assoc. repeat split; try assumption. lia.
Qed.

Lemma pulls_bind {A B : Type} (m : M A) (k : A -> M B)
    (Q : A -> list AlignedSegment -> Prop)
    (R : A -> B -> list AlignedSegment -> Prop) :
  pulls m Q -> (forall a, pulls (k a) (R a)) ->
  pulls (bind m k)
        (fun b pre => exists a p1 p2,
             pre = (p1 ++ p2)%list /\ Q a p1 /\ R a b p2).
Proof.
  intros Hm Hk w. unfold bind. specialize (Hm w).
  destruct (m w) as [[a|e] w1].
  - destruct Hm as (p1 & Ha & HQ). specialize (Hk a w1).
    destruct (k a w1) as [[b|e] w2].
    + destruct Hk as (p2 & Hb & HR). exists (p1 ++ p2)%list.
      split; [eapply advances_trans; eassumption|].
      exists a, p1, p2. auto.
    + destruct Hk as (He & Hn & p2 & Hb).
      split; [exact He|]. split; [exact Hn|].
      exists (p1 ++ p2)%list. eapply advances_trans; eassumption.
  - exact Hm.
Qed.

Lemma pulls_weaken {A : Type} (m : M A)
    (Q Q' : A -> list AlignedSegment -> Prop) :
  pulls m Q -> (forall a pre, Q a pre -> Q' a pre) -> pulls m Q'.
Proof.
  intros Hm HQ w. specialize (Hm w). destruct (m w) as [[a|e] w'].
  - destruct Hm as (pre & Ha & Hq). eauto.
  - exact Hm.
Qed.

Lemma next_read_pulls : pulls next_read (fun r pre => pre = [r]).
Proof.
  intros w. unfold next_read. destruct (bamiter w) as [|r rest] eqn:E.
  - split; [reflexivity|]. split; [exact E|].
    exists []. apply advances_refl.
  - exists [r]. split; [|reflexivity].
    unfold advances; simpl. rewrite E, Nat.add_1_r. tauto.
Qed.

Lemma skip_while_spec (cond : AlignedSegment -> bool)
    (rest : list AlignedSegment) :
  forall read total,
    match skip_while cond read rest total with
    | (Ok r, (rest', total')) =>
        exists pre, rest = (pre ++ rest')%list
                    /\ total' = (total + List.length pre)%nat
                    /\ In r (read :: pre) /\ cond r = false
    | (Exc e, (rest', total')) =>
        e = StopIteration /\ rest' = []
        /\ total' = (total + List.length rest)%nat
    end.
Proof.
  induction rest as [|x rest IH]; intros read total; simpl.
  - destruct (cond read) eqn:E.
    + rewrite Nat.add_0_r. auto.
    + exists []. simpl. rewrite Nat.add_0_r. auto.
  - destruct (cond read) eqn:E.
    + specialize (IH x (S total)).
      destruct (skip_while cond x rest (S total)) as [[r|e] [rest' total']].
      * destruct IH as (pre & Hr & Ht & Hi & Hc).
        exists (x :: pre). simpl. rewrite Hr, Ht.
        repeat split; auto; lia.
      * destruct IH as (He & Hr & Ht). repeat split; auto; lia.
    + exists []. simpl. rewrite Nat.add_0_r. auto.
Qed.

Lemma skip_pulls (cond : AlignedSegment -> bool) (read : AlignedSegment) :
  pulls (skip cond read)
        (fun r pre => In r (read :: pre) /\ cond r = false).
Proof.
  intros w. unfold skip.
  pose proof (skip_while_spec cond (bamiter w) read (total_reads w)) as H.
  destruct (skip_while cond read (bamiter w) (total_reads w))
    as [[r|e] [rest' total']].
  - destruct H as (pre & Hr & Ht & Hi & Hc). exists pre.
    unfold advances; simpl. tauto.
  - destruct H as (He & Hr & Ht). split; [exact He|]. split; [exact Hr|].
    exists (bamiter w). unfold advances; simpl.
    rewrite Hr, app_nil_r. tauto.
Qed.

Lemma select_mate1_pulls (g : gen_pos) :
  pulls (select_mate1 g)
        (fun r pre => In r pre /\ not_mate1 r = false).
Proof.
  unfold select_mate1.
  eapply pulls_weaken.
  - apply pulls_bind with (Q := fun r pre => In r pre).
    + destruct g.
      * eapply pulls_weaken; [apply next_read_pulls|].
        intros a pre ->. now left.
      * eapply pulls_weaken.
        -- apply pulls_bind; [apply next_read_pulls|].
           intros a. apply skip_pulls.
        -- cbn beta. intros r pre (a & p1 & p2 & -> & -> & Hi & _).
           exact Hi.
    + intros a. apply skip_pulls.
  - cbn beta. intros r pre (a & p1 & p2 & -> & Ha & Hi & Hc).
    split; [|exact Hc]. apply in_or_app. destruct Hi as [<-|Hi]; auto.
Qed.

Lemma select_mate2_pulls :
  pulls select_mate2 (fun r pre => In r pre /\ not_mate2 r = false).
Proof.
  unfold select_mate2. eapply pulls_weaken.
  - apply pulls_bind; [apply next_read_pulls|].
    intros a. apply skip_pulls.
  - cbn beta. intros r pre (a & p1 & p2 & -> & -> & Hi & Hc). auto.
Qed.

Lemma select_mates_pulls (g : gen_pos) :
  pulls (select_mates g)
        (fun mates pre =>
           In (fst mates) pre /\ In (snd mates) pre
           /\ (2 <= List.length pre)%nat).
Proof.
  unfold select_mates. eapply pulls_weaken.
  - apply pulls_bind; [apply select_mate1_pulls|].
    intros r1. apply pulls_bind with
      (R := fun r2 (mates : AlignedSegment * AlignedSegment) pre =>
              pre = [] /\ mates = (r1, r2));
      [apply select_mate2_pulls|].
    intros r2 w. unfold ret. exists []. split; [apply advances_refl|auto].
  - cbn beta.
    intros mates pre
      (r1 & p1 & p' & -> & (H1 & _) & r2 & p2 & p3 & -> & (H2 & _) & -> & ->).
    simpl. rewrite app_nil_r.
    split; [apply in_or_app; auto|]. split; [apply in_or_app; auto|].
    rewrite length_app.
    destruct p1; [contradiction|]. destruct p2; [contradiction|].
    simpl. lia.
Qed.

Lemma check_names_cases (mates : AlignedSegment * AlignedSegment) (w : world) :
  (query_name (fst mates) = query_name (snd mates)
   /\ check_names mates w = (Ok mates, w))
  \/ (query_name (fst mates) <> query_name (snd mates)
      /\ check_names mates w =
         (Exc (ValueError []),
          logged (mismatch_message (fst mates) (snd mates)) w)).
Proof.
  unfold check_names.
  destruct (String.eqb_spec (query_name (fst mates)) (query_name (snd mates)))
    as [E|E]; simpl; [left | right]; split; auto.
Qed.

(** The three ways a resumption ends. *)
Lemma resume_cases (g : gen_pos) (w : world) :
  match resume g w with
  | (Ok mates, w') =>
      exists pre, advances w w' pre
                  /\ In (fst mates) pre /\ In (snd mates) pre
                  /\ (2 <= List.length pre)%nat
                  /\ query_name (fst mates) = query_name (snd mates)
  | (Exc StopIteration, w') =>
      bamiter w' = [] /\ exists pre, advances w w' pre
  | (Exc (ValueError args), w') =>
      args = []
      /\ exists r1 r2 w1 pre,
           advances w w1 pre /\ In r1 pre /\ In r2 pre
           /\ query_name r1 <> query_name r2
           /\ w' = logged (mismatch_message r1 r2) w1
  | (Exc (KeyError _), _) => False
  | (Exc (RuntimeError _), _) => False
  end.
Proof.
  unfold resume, bind. pose proof (select_mates_pulls g w) as H.
  destruct (select_mates g w) as [[mates|e] w1].
  - destruct H as (pre & Ha & H1 & H2 & Hl).
    destruct (check_names_cases mates w1) as [[E ->]|[E ->]].
    + exists pre. auto.
    + split; [reflexivity|].
      exists (fst mates), (snd mates), w1, pre. auto.
  - destruct H as (-> & Hn & Hp). auto.
Qed.

Lemma advances_length (w w' : world) (pre : list AlignedSegment) :
  advances w w' pre ->
  List.length (bamiter w) = (List.length pre + List.length (bamiter w'))%nat.
Proof.
  intros (Hb & _). now rewrite Hb, length_app.
Qed.

Lemma advances_In (w w' : world) (pre : list AlignedSegment)
    (r : AlignedSegment) :
  advances w w' pre -> In r pre \/ In r (bamiter w') -> In r (bamiter w).
Proof.
  intros (Hb & _) H. rewrite Hb. now apply in_or_app.
Qed.

Lemma paired_from_advances (w w' : world) (pre : list AlignedSegment)
    (mates : AlignedSegment * AlignedSegment) :
  advances w w' pre ->
  paired_from (bamiter w') mates -> paired_from (bamiter w) mates.
Proof.
  intros Ha (Hq & H1 & H2).
  split; [exact Hq|]. split; eapply advances_In; eauto.
Qed.

(** With more fuel than records left, the generator runs to its end:
    it yields pairs of equally named records of the stream, and it ends
    on the exhausted iterator or on a mismatch of names. *)
Lemma read_bam_loop_spec (fuel : nat) :
  forall g w,
    (List.length (bamiter w) < fuel)%nat ->
    exists pairs e w',
      read_bam_loop fuel g w = Some (pairs, e, w')
      /\ Forall (paired_from (bamiter w)) pairs
      /\ (2 * List.length pairs <= List.length (bamiter w))%nat
      /\ same_outputs w w'
      /\ ((e = StopIteration /\ clean_end w w')
          \/ (e = ValueError [] /\ mismatch_end w w')).
Proof.
  induction fuel as [|fuel IH]; intros g w Hf; [lia|].
  simpl. pose proof (resume_cases g w) as H.
  destruct (resume g w) as [[mates|e] w1].
  - destruct H as (pre & Ha & H1 & H2 & Hl & Hq).
    pose proof (advances_length _ _ _ Ha) as Hlen.
    destruct (IH GenYielded w1) as (pairs & e & w' & -> & HF & Hn & Ho & He);
      [lia|].
    exists (mates :: pairs), e, w'. split; [reflexivity|].
    destruct Ha as (Hb & Ht & Hlog & Hf1 & Hf2 & Hf3 & Hf4).
    assert (Ha : advances w w1 pre) by (unfold advances; tauto).
    split; [|split; [|split]].
    + constructor.
      * split; [exact Hq|]. split; eapply advances_In; eauto.
      * eapply Forall_impl; [|exact HF].
        intros m. now apply paired_from_advances with (pre := pre).
    + simpl. lia.
    + unfold same_outputs in *. rewrite <- Hf1, <- Hf2, <- Hf3, <- Hf4. exact Ho.
    + destruct He as [[-> (Hn' & Ht' & Hl')]|[-> (r1 & r2 & I1 & I2 & Hd & Hl')]].
      * left. split; [reflexivity|]. unfold clean_end.
        rewrite Hn', Ht', Hl', Ht, Hlog. repeat split. lia.
      * right. split; [reflexivity|]. exists r1, r2.
        rewrite Hl', Hlog.
        repeat split; try assumption; eapply advances_In; eauto.
  - destruct e as [|args|k|args]; [| |contradiction|contradiction].
    + destruct H as (Hn & pre & Ha).
      exists [], StopIteration, w1. split; [reflexivity|].
      split; [constructor|]. split; [simpl; lia|].
      pose proof (advances_length _ _ _ Ha) as Hlen.
      destruct Ha as (Hb & Ht & Hlog & Hf1 & Hf2 & Hf3 & Hf4).
      split; [unfold same_outputs; tauto|]. left. split; [reflexivity|].
      unfold clean_end. rewrite Hn in Hlen. simpl in Hlen.
      repeat split; try assumption. lia.
    + destruct H as (-> & r1 & r2 & w0 & pre & Ha & I1 & I2 & Hd & ->).
      exists [], (ValueError []), (logged (mismatch_message r1 r2) w0).
      split; [reflexivity|]. split; [constructor|]. split; [simpl; lia|].
      assert (J1 : In r1 (bamiter w)) by (eapply advances_In; eauto).
      assert (J2 : In r2 (bamiter w)) by (eapply advances_In; eauto).
      destruct Ha as (Hb & Ht & Hlog & Hf1 & Hf2 & Hf3 & Hf4).
      split; [unfold same_outputs; simpl; tauto|]. right.
      split; [reflexivity|]. exists r1, r2. simpl. rewrite Hlog. auto.
Qed.

(** * The generator and the printers do not meet *)

Lemma set_outputs_self (w : world) : set_outputs w w = w.
Proof. now destruct w. Qed.

Lemma input_only_bind {A B : Type} (m : M A) (k : A -> M B) :
  input_only m -> (forall a, input_only (k a)) -> input_only (bind m k).
Proof.
  intros Hm Hk o w. unfold bind. rewrite Hm.
  destruct (m w) as [[a|e] w1]; simpl; [apply Hk | reflexivity].
Qed.

Lemma input_only_next_read : input_only next_read.
Proof.
  intros o w. unfold next_read. simpl. now destruct (bamiter w).
Qed.

Lemma input_only_skip (cond : AlignedSegment -> bool) (read : AlignedSegment) :
  input_only (skip cond read).
Proof.
  intros o w. unfold skip. simpl.
  now destruct (skip_while cond read (bamiter w) (total_reads w))
    as [r [rest total]].
Qed.

Lemma input_only_check_names (mates : AlignedSegment * AlignedSegment) :
  input_only (check_names mates).
Proof.
  intros o w. unfold check_names.
  now destruct (negb (query_name (fst mates) =? query_name (snd mates))%string).
Qed.

Lemma input_only_resume (g : gen_pos) : input_only (resume g).
Proof.
  unfold resume, select_mates, select_mate1, select_mate2.
  repeat first
    [ apply input_only_bind; [|intros ?]
    | apply input_only_next_read
    | apply input_only_skip
    | apply input_only_check_names
    | destruct g ].
  all: intros o w; reflexivity.
Qed.

Lemma output_only_bind {A B : Type} (m : M A) (k : A -> M B) :
  output_only m -> (forall a, output_only (k a)) -> output_only (bind m k).
Proof.
  intros Hm Hk w. unfold bind. specialize (Hm w).
  destruct (m w) as [[a|e] w1]; simpl in *.
  2:{ destruct Hm as (Hs & He). split; [exact Hs|].
      intros e0 [= <-]. now apply He. }
  destruct Hm as ((Hb & Ht & Hl) & _). specialize (Hk a w1).
  destruct Hk as ((Hb' & Ht' & Hl') & He). split; [|exact He].
  unfold same_inputs. rewrite Hb', Ht', Hl'. auto.
Qed.

Lemma normalize_exc (s q : string) (b : bool) (e : exn) :
  normalize s q b = Exc e -> exists k, e = KeyError k.
Proof.
  unfold normalize. destruct b; [|discriminate].
  rewrite rev_comp_spec. destruct (first_bad s) as [c|]; [|discriminate].
  intros [= <-]. eauto.
Qed.

Lemma output_only_write_pair (write1 write2 : string -> M unit)
    (r1 r2 : AlignedSegment) :
  (forall s, output_only (write1 s)) -> (forall s, output_only (write2 s)) ->
  output_only (write_pair write1 write2 r1 r2).
Proof.
  intros H1 H2. unfold write_pair.
  repeat first
    [ apply output_only_bind; [|intros ?]
    | apply H1 | apply H2 ].
  all: intros w; unfold lift; simpl; split;
    [unfold same_inputs; auto | apply normalize_exc].
Qed.

Lemma output_only_print_it (p : bool) (r1 r2 : AlignedSegment) :
  output_only (print_it p r1 r2).
Proof.
  destruct p; apply output_only_write_pair; intros s w; simpl;
    (split; [unfold same_inputs; auto | discriminate]).
Qed.

Lemma output_only_evaluate_body (p : bool) (mm : Z) (stype : string)
    (mates : AlignedSegment * AlignedSegment) (c : counters) :
  output_only (evaluate_body p mm stype mates c).
Proof.
  assert (Hret : forall c', output_only (ret (A := counters) c')).
  { intros c' w; simpl. split; [unfold same_inputs; auto | discriminate]. }
  destruct mates as [r1 r2]. rewrite evaluate_body_classify.
  destruct (classify r1 r2 mm stype); [apply Hret| |];
    (apply output_only_bind; [apply output_only_print_it | intros _; apply Hret]).
Qed.

(** * The assembler: mismatch and end of stream *)


(** C7 fails as stated: for two selected records of different names the
    error that is raised, and that leaves [evaluate], is a [ValueError]
    without any argument; the two names are in the line written to the
    log before the [raise], not in the error. *)
Lemma mismatch_error_carries_nothing :
  query_name fwd_mate1 <> query_name other_mate2
  /\ generator_next GenStart (start [fwd_mate1; other_mate2]) =
     (Raised (ValueError []),
      mkWorld [] 2 (mismatch_message fwd_mate1 other_mate2) "" "" "" "")
  /\ evaluate false 0 "DNA" (start [fwd_mate1; other_mate2]) =
     Some (Exc (ValueError []),
           mkWorld [] 2 (mismatch_message fwd_mate1 other_mate2) "" "" "" "")
  /\ ~ (exists args w',
          args <> []
          /\ evaluate false 0 "DNA" (start [fwd_mate1; other_mate2]) =
             Some (Exc (ValueError args), w')).
Proof.
  split; [discriminate|]. split; [reflexivity|]. split; [reflexivity|].
  intros (args & w' & Ha & [= <- _]). now apply Ha.
Qed.

(** C7, amended: when the two records selected as first and second mate
    have different names, the generator appends to the log the line
    that names both records and then raises a [ValueError] without
    argument; no pair is yielded for them, the error reaches the caller
    of the generator as it is and leaves [evaluate] at once, and nothing
    is written to the destinations. *)
Theorem pair_mismatch_raises (g : gen_pos) (w w1 : world)
    (r1 r2 : AlignedSegment) :
  select_mates g w = (Ok (r1, r2), w1) ->
  query_name r1 <> query_name r2 ->
  resume g w = (Exc (ValueError []), logged (mismatch_message r1 r2) w1)
  /\ generator_next g w =
     (Raised (ValueError []), logged (mismatch_message r1 r2) w1)
  /\ (forall fuel,
        read_bam_loop (S fuel) g w =
        Some ([], ValueError [], logged (mismatch_message r1 r2) w1))
  /\ (forall fuel p mm stype c,
        evaluate_loop (S fuel) p mm stype g c w =
        Some (Exc (ValueError []), logged (mismatch_message r1 r2) w1))
  /\ same_outputs w (logged (mismatch_message r1 r2) w1)
  /\ logfile (logged (mismatch_message r1 r2) w1) =
     logfile w ++ "Read 1 query not equal to read 2 query" ++ nl
       ++ query_name r1 ++ nl ++ query_name r2.
Proof.
  intros Hs Hq.
  assert (Hr : resume g w =
               (Exc (ValueError []), logged (mismatch_message r1 r2) w1)).
  { unfold resume, bind. rewrite Hs.
    destruct (check_names_cases (r1, r2) w1) as [[E _]|[_ ->]];
      [contradiction | reflexivity]. }
  assert (Hg : generator_next g w =
               (Raised (ValueError []), logged (mismatch_message r1 r2) w1))
    by (unfold generator_next; now rewrite Hr).
  split; [exact Hr|]. split; [exact Hg|].
  split; [intros fuel; simpl; now rewrite Hr|].
  split; [intros fuel p mm stype c; simpl; now rewrite Hg|].
  pose proof (select_mates_pulls g w) as Hp. rewrite Hs in Hp.
  destruct Hp as (pre & (_ & _ & Hl & H1 & H2 & H3 & H4) & _).
  split; [unfold same_outputs; simpl; tauto|].
  simpl. now rewrite Hl.
Qed.

Lemma pair_mismatch_sample :
  select_mates GenStart (start [fwd_mate1; other_mate2]) =
    (Ok (fwd_mate1, other_mate2), mkWorld [] 2 "" "" "" "" "")
  /\ query_name fwd_mate1 <> query_name other_mate2
  /\ resume GenStart (start [fwd_mate1; other_mate2]) =
     (Exc (ValueError []),
      logged (mismatch_message fwd_mate1 other_mate2)
             (mkWorld [] 2 "" "" "" "" "")).
Proof.
  split; [reflexivity|]. split; [discriminate|].
  apply (pair_mismatch_raises GenStart (start [fwd_mate1; other_mate2])
           (mkWorld [] 2 "" "" "" "" "") fwd_mate1 other_mate2);
    [reflexivity | discriminate].
Defined.

(** C8, at inputs where the code departs from it: on a stream made of
    one complete pair, and on the empty stream, the body of the
    generator is left by the [StopIteration] of the exhausted iterator,
    which reaches the [for] loop of [evaluate] as [RuntimeError]; the
    error leaves [evaluate], whose [return] is not reached, after the
    pairs yielded before were handled. *)
Theorem exhausted_stream_raises :
  read_bam (start [lost_mate1; lost_mate2]) =
    Some ([(lost_mate1, lost_mate2)], StopIteration,
          mkWorld [] 2 "" "" "" "" "")
  /\ generator_next GenYielded (mkWorld [] 2 "" "" "" "" "") =
     (Raised (RuntimeError ["generator raised StopIteration"]),
      mkWorld [] 2 "" "" "" "" "")
  /\ evaluate false 0 "DNA" (start [lost_mate1; lost_mate2]) =
     Some (Exc (RuntimeError ["generator raised StopIteration"]),
           mkWorld [] 2 ""
                   (fastq_record "frag2" "AACG" "!!#!")
                   (fastq_record "frag2" "GGTA" "#!!!") "" "")
  /\ evaluate false 0 "DNA" (start []) =
     Some (Exc (RuntimeError ["generator raised StopIteration"]), start []).
Proof.
  repeat split.
Qed.




(** * The printers: what is written, and when they fail *)

Lemma emit_empty (p : bool) (w : world) : emit p "" "" w = w.
Proof.
  destruct w, p; unfold emit; simpl; now rewrite !append_empty_r.
Qed.

Lemma emit_emit (p : bool) (a1 a2 t1 t2 : string) (w : world) :
  emit p t1 t2 (emit p a1 a2 w) = emit p (a1 ++ t1) (a2 ++ t2) w.
Proof.
  destruct p; unfold emit; simpl; now rewrite !append_assoc.
Qed.

Lemma emit_set_outputs (p : bool) (a1 a2 : string) (wo w1 wr : world) :
  set_outputs (emit p a1 a2 (set_outputs wo w1)) wr =
  emit p a1 a2 (set_outputs wo wr).
Proof.
  now destruct p.
Qed.

Lemma print_it_first_fails (p : bool) (r1 r2 : AlignedSegment) (e : exn)
    (w : world) :
  oriented r1 = Exc e -> print_it p r1 r2 w = (Exc e, w).
Proof.
  unfold oriented. intros H.
  destruct p; unfold print_it, print_fastq, print_fastq_to_pipes, write_pair,
    bind, lift; now rewrite H.
Qed.

Lemma print_it_second_fails (p : bool) (r1 r2 : AlignedSegment)
    (cur1 : string * string) (e : exn) (w : world) :
  oriented r1 = Ok cur1 -> oriented r2 = Exc e ->
  print_it p r1 r2 w =
  (Exc e, emit p (fastq_record (query_name r1) (fst cur1) (snd cur1)) "" w).
Proof.
  unfold oriented. intros H1 H2.
  destruct p; unfold print_it, print_fastq, print_fastq_to_pipes, write_pair,
    bind, lift, emit; rewrite H1; cbn; rewrite H2, append_empty_r;
    reflexivity.
Qed.

Lemma oriented_fails (read : AlignedSegment) (e : exn) :
  oriented read = Exc e <->
  is_reverse read = true
  /\ exists c, first_bad (seq read) = Some c /\ e = KeyError c.
Proof.
  unfold oriented, normalize. destruct (is_reverse read).
  - rewrite rev_comp_spec. destruct (first_bad (seq read)) as [c|].
    + split.
      * intros [= <-]. eauto.
      * intros (_ & c' & [= <-] & ->). reflexivity.
    + split; [discriminate|]. intros (_ & c & H & _). discriminate.
  - split; [discriminate|]. intros (H & _). discriminate.
Qed.

(** The body of the loop on a pair, after the numbering of the pair. *)
Lemma evaluate_body_render (p : bool) (mm : Z) (stype : string)
    (mates : AlignedSegment * AlignedSegment) (c : counters) (w : world) :
  let c1 := mkCounters (S (pair_count c)) (keep_count c) (ambiguous_count c) in
  if kept mm stype mates then
    match render_pair mates with
    | Ok (a1, a2) =>
        evaluate_body p mm stype mates c1 w =
        (Ok (tally_pair mm stype mates c), emit p a1 a2 w)
    | Exc e => exists w', evaluate_body p mm stype mates c1 w = (Exc e, w')
    end
  else evaluate_body p mm stype mates c1 w =
       (Ok (tally_pair mm stype mates c), w).
Proof.
  destruct mates as [r1 r2]. cbn zeta.
  rewrite evaluate_body_classify.
  unfold kept, tally_pair, render_pair; simpl fst; simpl snd.
  destruct (classify r1 r2 mm stype); [reflexivity| |];
    (destruct (oriented r1) as [cur1|e1] eqn:E1;
     [destruct (oriented r2) as [cur2|e2] eqn:E2|]; unfold bind;
     [ now rewrite (print_it_ok p r1 r2 cur1 cur2 w E1 E2)
     | rewrite (print_it_second_fails p r1 r2 cur1 e2 w E1 E2); eauto
     | rewrite (print_it_first_fails p r1 r2 e1 w E1); eauto ]).
Qed.

(** C2 fails as stated on an unmapped pair whose first record has the
    reverse flag and the symbol R in its sequence: the pair is
    classified [KeepUnmapped], but the printer raises [KeyError], nothing
    is written and [keep_count] is not incremented. *)
Lemma unmapped_reverse_pair_raises :
  is_unmapped lost_rev_mate1 = true
  /\ is_unmapped lost_rev_mate2 = true
  /\ classify lost_rev_mate1 lost_rev_mate2 2 "DNA" = KeepUnmapped
  /\ evaluate_body false 2 "DNA" (lost_rev_mate1, lost_rev_mate2)
       (mkCounters 1 0 0) (mkWorld [] 2 "" "" "" "" "") =
     (Exc (KeyError "R"), mkWorld [] 2 "" "" "" "" "")
  /\ evaluate false 2 "DNA" (start [lost_rev_mate1; lost_rev_mate2]) =
     Some (Exc (KeyError "R"), mkWorld [] 2 "" "" "" "" "").
Proof.
  repeat split.
Qed.

(** C2, amended: a pair whose two records are unmapped is classified
    [KeepUnmapped] whatever the other fields, the mismatch bound and the
    sample type.  The body of the loop then writes one FASTQ record per
    mate (the at sign and the name, the sequence, a plus sign, the
    quality, each followed by a line end; sequence and quality as
    stored, or reverse-complemented and reversed for a record with the
    reverse flag) and increments [keep_count], unless a record with the
    reverse flag has a symbol outside A, T, C, G, N: then the printer
    raises the [KeyError] of the first such symbol and [keep_count] is
    not incremented, the record of the first mate being already written
    when it is the second record that fails. *)
Theorem both_unmapped_kept (r1 r2 : AlignedSegment) (mm : Z) (stype : string) :
  is_unmapped r1 = true -> is_unmapped r2 = true ->
  classify r1 r2 mm stype = KeepUnmapped
  /\ (forall p c w,
        evaluate_body p mm stype (r1, r2) c w =
        match oriented r1, oriented r2 with
        | Ok (s1, q1), Ok (s2, q2) =>
            (Ok (mkCounters (pair_count c) (S (keep_count c))
                            (ambiguous_count c)),
             emit p (four_lines (query_name r1) s1 q1)
                    (four_lines (query_name r2) s2 q2) w)
        | Ok (s1, q1), Exc e =>
            (Exc e, emit p (four_lines (query_name r1) s1 q1) "" w)
        | Exc e, _ => (Exc e, w)
        end)
  /\ (forall read,
        oriented read =
        if is_reverse read then
          match first_bad (seq read) with
          | None => Ok (string_rev (string_map complement (seq read)),
                        string_rev (qual read))
          | Some c => Exc (KeyError c)
          end
        else Ok (seq read, qual read)).
Proof.
  intros H1 H2.
  assert (Hc : classify r1 r2 mm stype = KeepUnmapped).
  { unfold classify. now rewrite H1, H2. }
  split; [exact Hc|]. split.
  - intros p c w. rewrite evaluate_body_classify, Hc. unfold bind.
    destruct (oriented r1) as [[s1 q1]|e1] eqn:E1.
    + destruct (oriented r2) as [[s2 q2]|e2] eqn:E2.
      * now rewrite (print_it_ok p r1 r2 _ _ w E1 E2).
      * now rewrite (print_it_second_fails p r1 r2 _ e2 w E1 E2).
    + now rewrite (print_it_first_fails p r1 r2 e1 w E1).
  - intros read. unfold oriented, normalize.
    destruct (is_reverse read); [apply rev_comp_spec | reflexivity].
Qed.

Lemma both_unmapped_kept_sample :
  is_unmapped lost_mate1 = true /\ is_unmapped lost_mate2 = true
  /\ classify lost_mate1 lost_mate2 2 "DNA" = KeepUnmapped
  /\ evaluate_body false 2 "DNA" (lost_mate1, lost_mate2)
       (mkCounters 1 0 0) (mkWorld [] 2 "" "" "" "" "") =
     (Ok (mkCounters 1 1 0),
      mkWorld [] 2 ""
        (String "@" ("frag2" ++ String "010" ("AACG" ++ String "010"
           ("+" ++ String "010" ("!!#!" ++ String "010" "")))))
        (String "@" ("frag2" ++ String "010" ("GGTA" ++ String "010"
           ("+" ++ String "010" ("#!!!" ++ String "010" "")))))
        "" "").
Proof.
  split; [reflexivity|]. split; [reflexivity|].
  destruct (both_unmapped_kept lost_mate1 lost_mate2 2 "DNA"
              eq_refl eq_refl) as (Hc & Hb & _).
  split; [exact Hc|]. rewrite Hb. reflexivity.
Defined.

(** [evaluate] on the pairs of the generator: the destinations receive
    the rendering of the kept pairs, and the run ends with the
    exception that leaves the generator; a printer that fails ends the
    run first. *)
Lemma evaluate_loop_renders (p : bool) (mm : Z) (stype : string) (fuel : nat) :
  forall g c w pairs e wr,
    read_bam_loop fuel g w = Some (pairs, e, wr) ->
    forall wo,
      same_inputs w wo ->
      match render mm stype pairs with
      | Ok (t1, t2) =>
          evaluate_loop fuel p mm stype g c wo =
          Some (Exc (finish e), emit p t1 t2 (set_outputs wo wr))
      | Exc k =>
          exists we, evaluate_loop fuel p mm stype g c wo = Some (Exc k, we)
      end.
Proof.
  induction fuel as [|fuel IH]; intros g c w pairs e wr Hr wo Hw;
    [discriminate|].
  assert (Hwo : wo = set_outputs wo w).
  { destruct Hw as (Hb & Ht & Hl). destruct wo; simpl in *.
    unfold set_outputs; simpl. now rewrite Hb, Ht, Hl. }
  simpl in Hr |- *. unfold generator_next.
  rewrite Hwo, input_only_resume.
  destruct (resume g w) as [[mates|e0] w1]; simpl.
  - destruct (read_bam_loop fuel GenYielded w1) as [[[pairs' e'] wr']|] eqn:E;
      [|discriminate].
    injection Hr as <- <- <-. simpl.
    pose proof (evaluate_body_render p mm stype mates c (set_outputs wo w1))
      as Hb. cbn zeta in Hb.
    destruct (kept mm stype mates).
    + destruct (render_pair mates) as [[a1 a2]|k].
      * rewrite Hb.
        assert (Hs : same_inputs w1 (emit p a1 a2 (set_outputs wo w1)))
          by (destruct p; unfold same_inputs; auto).
        specialize (IH GenYielded (tally_pair mm stype mates c) w1 pairs' e'
                       wr' E _ Hs).
        destruct (render mm stype pairs') as [[t1 t2]|k]; [|exact IH].
        now rewrite IH, emit_set_outputs, emit_emit.
      * destruct Hb as (w' & ->). eauto.
    + rewrite Hb.
      assert (Hs : same_inputs w1 (set_outputs wo w1))
        by (unfold same_inputs; auto).
      exact (IH GenYielded (tally_pair mm stype mates c) w1 pairs' e' wr' E
                _ Hs).
  - injection Hr as <- <- <-. simpl.
    destruct e0; simpl; now rewrite emit_empty.
Qed.

Lemma set_outputs_same (w wr : world) :
  same_outputs w wr -> set_outputs w wr = wr.
Proof.
  intros (H1 & H2 & H3 & H4). destruct wr; simpl in *.
  unfold set_outputs; simpl. now rewrite H1, H2, H3, H4.
Qed.

Lemma read_bam_same_outputs (w wr : world)
    (pairs : list (AlignedSegment * AlignedSegment)) (e : exn) :
  read_bam w = Some (pairs, e, wr) -> same_outputs w wr.
Proof.
  unfold read_bam. intros H.
  destruct (read_bam_loop_spec (S (List.length (bamiter w))) GenStart w)
    as (pairs' & e' & w' & Hr & _ & _ & Ho & _); [lia|].
  rewrite H in Hr. now injection Hr as <- <- <-.
Qed.

Lemma evaluate_renders (p : bool) (mm : Z) (stype : string) (w wr : world)
    (pairs : list (AlignedSegment * AlignedSegment)) (e : exn) :
  read_bam w = Some (pairs, e, wr) ->
  match render mm stype pairs with
  | Ok (t1, t2) =>
      evaluate p mm stype w = Some (Exc (finish e), emit p t1 t2 wr)
  | Exc k => exists we, evaluate p mm stype w = Some (Exc k, we)
  end.
Proof.
  intros Hr. pose proof (read_bam_same_outputs _ _ _ _ Hr) as Ho.
  assert (Hs : same_inputs w w) by (unfold same_inputs; auto).
  pose proof (evaluate_loop_renders p mm stype _ GenStart (mkCounters 0 0 0)
                w pairs e wr Hr w Hs) as H.
  unfold evaluate. destruct (render mm stype pairs) as [[t1 t2]|k];
    [|exact H].
  now rewrite H, (set_outputs_same _ _ Ho).
Qed.

(** X1: [evaluate] is the generator followed by the classification of
    its pairs in order.  If the body of [read_bam] yields [pairs] and is
    left by [e], then either a printer fails on one of the kept pairs
    and [evaluate] raises that [KeyError], or [evaluate] has appended
    the FASTQ records of the kept pairs, in the order of the stream, to
    its two destinations and ends with the exception of the generator:
    [e] itself, or the [RuntimeError] made of it when [e] is the
    [StopIteration] of the exhausted iterator.  The text written before
    stays written. *)
Theorem evaluate_refines (p : bool) (mm : Z) (stype : string) (w wr : world)
    (pairs : list (AlignedSegment * AlignedSegment)) (e : exn) :
  read_bam w = Some (pairs, e, wr) ->
  match render mm stype pairs with
  | Ok (t1, t2) =>
      evaluate p mm stype w = Some (Exc (finish e), emit p t1 t2 wr)
  | Exc k => exists we, evaluate p mm stype w = Some (Exc k, we)
  end.
Proof.
  apply evaluate_renders.
Qed.

Lemma evaluate_refines_sample :
  read_bam (start [fwd_mate1; rev_mate2; lost_mate1; lost_mate2;
                   fwd_mate1; other_mate2]) =
    Some ([(fwd_mate1, rev_mate2); (lost_mate1, lost_mate2)], ValueError [],
          mkWorld [] 6 (mismatch_message fwd_mate1 other_mate2) "" "" "" "")
  /\ evaluate false 0 "DNA"
       (start [fwd_mate1; rev_mate2; lost_mate1; lost_mate2;
               fwd_mate1; other_mate2]) =
     Some (Exc (ValueError []),
           mkWorld [] 6 (mismatch_message fwd_mate1 other_mate2)
                   (String "@" ("frag2" ++ String "010" ("AACG" ++
                      String "010" ("+" ++ String "010" ("!!#!" ++
                      String "010" "")))))
                   (String "@" ("frag2" ++ String "010" ("GGTA" ++
                      String "010" ("+" ++ String "010" ("#!!!" ++
                      String "010" "")))))
                   "" "").
Proof.
  split; [reflexivity|].
  exact (evaluate_refines false 0 "DNA"
           (start [fwd_mate1; rev_mate2; lost_mate1; lost_mate2;
                   fwd_mate1; other_mate2])
           (mkWorld [] 6 (mismatch_message fwd_mate1 other_mate2) "" "" "" "")
           [(fwd_mate1, rev_mate2); (lost_mate1, lost_mate2)] (ValueError [])
           eq_refl).
Defined.

Lemma render_exc (mm : Z) (stype : string)
    (pairs : list (AlignedSegment * AlignedSegment)) (e : exn) :
  render mm stype pairs = Exc e -> exists k, e = KeyError k.
Proof.
  induction pairs as [|mates pairs IH]; simpl; [discriminate|].
  destruct (kept mm stype mates); [|exact IH].
  unfold render_pair, oriented.
  destruct (normalize (seq (fst mates)) (qual (fst mates))
                      (is_reverse (fst mates))) as [cur1|e1] eqn:E1.
  - destruct (normalize (seq (snd mates)) (qual (snd mates))
                        (is_reverse (snd mates))) as [cur2|e2] eqn:E2.
    + destruct (render mm stype pairs) as [[t1 t2]|e']; [discriminate|].
      intros [= <-]. now apply IH.
    + intros [= <-]. eapply normalize_exc; eassumption.
  - intros [= <-]. eapply normalize_exc; eassumption.
Qed.

(** X2: [evaluate] never returns its counters.  On every finite stream
    it ends with an exception: the [KeyError] of a printer, the
    [ValueError] of two records of different names, which it logged, or,
    when the iterator is exhausted and every record was counted, the
    [RuntimeError] made of the [StopIteration] that leaves the body of
    the generator. *)
Theorem evaluate_never_returns (p : bool) (mm : Z) (stype : string)
    (w : world) :
  exists e we,
    evaluate p mm stype w = Some (Exc e, we)
    /\ ((e = RuntimeError ["generator raised StopIteration"]
         /\ clean_end w we)
        \/ (e = ValueError [] /\ mismatch_end w we)
        \/ (exists k, e = KeyError k)).
Proof.
  destruct (read_bam_loop_spec (S (List.length (bamiter w))) GenStart w)
    as (pairs & e & wr & Hr & _ & _ & _ & Hend); [lia|].
  fold (read_bam w) in Hr.
  pose proof (evaluate_renders p mm stype w wr pairs e Hr) as H.
  destruct (render mm stype pairs) as [[t1 t2]|k] eqn:Er.
  - exists (finish e), (emit p t1 t2 wr). split; [exact H|].
    destruct Hend as [(-> & Hc)|(-> & Hm)].
    + left. split; [reflexivity|]. now destruct p.
    + right. left. split; [reflexivity|]. now destruct p.
  - destruct H as (we & H). exists k, we. split; [exact H|].
    right. right. eapply render_exc; eassumption.
Qed.

(** * The destinations *)

Lemma same_outputs_refl (w : world) : same_outputs w w.
Proof. unfold same_outputs; auto. Qed.

Lemma appended_same (p : bool) (w w' : world) :
  same_outputs w w' -> appended p w w'.
Proof.
  intros H. exists "", "". now rewrite emit_empty.
Qed.

Lemma appended_emit (p : bool) (a1 a2 : string) (w : world) :
  appended p w (emit p a1 a2 w).
Proof.
  exists a1, a2. apply same_outputs_refl.
Qed.

Lemma appended_trans (p : bool) (w w1 w2 : world) :
  appended p w w1 -> appended p w1 w2 -> appended p w w2.
Proof.
  intros (t1 & t2 & H1) (u1 & u2 & H2).
  exists (t1 ++ u1), (t2 ++ u2).
  unfold same_outputs in *. destruct p; simpl in *;
    destruct H1 as (A1 & A2 & A3 & A4); destruct H2 as (B1 & B2 & B3 & B4);
    rewrite B1, B2, B3, B4, A1, A2, A3, A4, <- ?append_assoc; auto.
Qed.

Lemma resume_same_outputs (g : gen_pos) (w : world) :
  same_outputs w (snd (resume g w)).
Proof.
  pose proof (resume_cases g w) as H.
  destruct (resume g w) as [[mates|e] w1]; simpl.
  - destruct H as (pre & (_ & _ & _ & H1 & H2 & H3 & H4) & _).
    unfold same_outputs; auto.
  - destruct e as [|args|k|args]; [| |contradiction|contradiction].
    + destruct H as (_ & pre & (_ & _ & _ & H1 & H2 & H3 & H4)).
      unfold same_outputs; auto.
    + destruct H as (_ & r1 & r2 & w0 & pre
                     & (_ & _ & _ & H1 & H2 & H3 & H4) & _ & _ & _ & ->).
      unfold same_outputs; simpl; auto.
Qed.

Lemma print_it_appended (p : bool) (r1 r2 : AlignedSegment) (w : world) :
  appended p w (snd (print_it p r1 r2 w)).
Proof.
  destruct (oriented r1) as [cur1|e1] eqn:E1.
  - destruct (oriented r2) as [cur2|e2] eqn:E2.
    + rewrite (print_it_ok p r1 r2 cur1 cur2 w E1 E2). apply appended_emit.
    + rewrite (print_it_second_fails p r1 r2 cur1 e2 w E1 E2).
      apply appended_emit.
    - rewrite (print_it_first_fails p r1 r2 e1 w E1).
      apply appended_same, same_outputs_refl.
Qed.

Lemma evaluate_body_appended (p : bool) (mm : Z) (stype : string)
    (mates : AlignedSegment * AlignedSegment) (c : counters) (w : world) :
  appended p w (snd (evaluate_body p mm stype mates c w)).
Proof.
  destruct mates as [r1 r2]. rewrite evaluate_body_classify.
  pose proof (print_it_appended p r1 r2 w) as H.
  destruct (classify r1 r2 mm stype); unfold bind, ret; simpl;
    [apply appended_same, same_outputs_refl | |];
    now destruct (print_it p r1 r2 w) as [[u|e] w1].
Qed.

Lemma evaluate_loop_appended (p : bool) (mm : Z) (stype : string)
    (fuel : nat) :
  forall g c w r we,
    evaluate_loop fuel p mm stype g c w = Some (r, we) -> appended p w we.
Proof.
  induction fuel as [|fuel IH]; intros g c w r we H; [discriminate|].
  simpl in H. unfold generator_next in H.
  pose proof (resume_same_outputs g w) as Hr.
  destruct (resume g w) as [[mates|e] w1]; simpl in Hr.
  - set (c1 := mkCounters (S (pair_count c)) (keep_count c)
                          (ambiguous_count c)) in H.
    pose proof (evaluate_body_appended p mm stype mates c1 w1) as Hb.
    destruct (evaluate_body p mm stype mates c1 w1) as [[c'|e] w2];
      simpl in Hb.
    + apply IH in H.
      eapply appended_trans; [apply appended_same; exact Hr|].
      eapply appended_trans; eassumption.
    + injection H as <- <-.
      eapply appended_trans; [apply appended_same; exact Hr | exact Hb].
  - apply appended_same.
    destruct e; injection H as <- <-; exact Hr.
Qed.

(** X3: whatever the way [evaluate] ends, with counters or with an
    error, it has only appended text to the two destinations in use
    (the two files, or the two standard streams when [fq1] is [None]):
    what they held is still there as a prefix, and the other two
    destinations are untouched. *)
Theorem evaluate_appends (p : bool) (mm : Z) (stype : string) (w we : world)
    (r : res counters) :
  evaluate p mm stype w = Some (r, we) ->
  exists t1 t2,
    if p
    then stdout we = stdout w ++ t1 /\ stderr we = stderr w ++ t2
         /\ fq1 we = fq1 w /\ fq2 we = fq2 w
    else fq1 we = fq1 w ++ t1 /\ fq2 we = fq2 w ++ t2
         /\ stdout we = stdout w /\ stderr we = stderr w.
Proof.
  intros H. apply evaluate_loop_appended in H.
  destruct H as (t1 & t2 & H1 & H2 & H3 & H4). exists t1, t2.
  destruct p; simpl in *; auto.
Qed.

Lemma evaluate_appends_sample :
  evaluate true 0 "DNA"
    (start [lost_mate1; lost_mate2; fwd_mate1; other_mate2]) =
    Some (Exc (ValueError []),
          mkWorld [] 4 (mismatch_message fwd_mate1 other_mate2) "" ""
                  (fastq_record "frag2" "AACG" "!!#!")
                  (fastq_record "frag2" "GGTA" "#!!!"))
  /\ exists t1 t2,
       fastq_record "frag2" "AACG" "!!#!" = "" ++ t1
       /\ fastq_record "frag2" "GGTA" "#!!!" = "" ++ t2
       /\ "" = "" /\ "" = "".
Proof.
  assert (H : evaluate true 0 "DNA"
                (start [lost_mate1; lost_mate2; fwd_mate1; other_mate2]) =
              Some (Exc (ValueError []),
                    mkWorld [] 4 (mismatch_message fwd_mate1 other_mate2)
                            "" "" (fastq_record "frag2" "AACG" "!!#!")
                            (fastq_record "frag2" "GGTA" "#!!!")))
    by reflexivity.
  split; [exact H|].
  exact (evaluate_appends true 0 "DNA"
           (start [lost_mate1; lost_mate2; fwd_mate1; other_mate2])
           (mkWorld [] 4 (mismatch_message fwd_mate1 other_mate2)
                    "" "" (fastq_record "frag2" "AACG" "!!#!")
                    (fastq_record "frag2" "GGTA" "#!!!"))
           (Exc (ValueError [])) H).
Defined.

(** X4: a printer fails only on a record that is reverse-complemented
    and has a symbol without entry in [code], with the [KeyError] of the
    first such symbol.  When it is the first record of the pair, nothing
    is written; when it is the second, the FASTQ record of the first has
    been written to its destination and stays there, while the second
    destination has received nothing. *)
Theorem print_it_failure (p : bool) (r1 r2 : AlignedSegment) (w : world) :
  (forall e, oriented r1 = Exc e -> print_it p r1 r2 w = (Exc e, w))
  /\ (forall cur1 e,
        oriented r1 = Ok cur1 -> oriented r2 = Exc e ->
        print_it p r1 r2 w =
        (Exc e,
         emit p (fastq_record (query_name r1) (fst cur1) (snd cur1)) "" w))
  /\ (forall e, fst (print_it p r1 r2 w) = Exc e ->
                oriented r1 = Exc e
                \/ ((exists cur1, oriented r1 = Ok cur1)
                    /\ oriented r2 = Exc e))
  /\ (forall read e,
        oriented read = Exc e <->
        is_reverse read = true
        /\ exists c, first_bad (seq read) = Some c /\ e = KeyError c).
Proof.
  split; [intros e; apply print_it_first_fails|].
  split; [intros cur1 e; apply print_it_second_fails|].
  split; [|intros read e; apply oriented_fails].
  intros e. destruct (oriented r1) as [cur1|e1] eqn:E1.
  - destruct (oriented r2) as [cur2|e2] eqn:E2.
    + rewrite (print_it_ok p r1 r2 cur1 cur2 w E1 E2). discriminate.
    + rewrite (print_it_second_fails p r1 r2 cur1 e2 w E1 E2).
      intros [= <-]. right. eauto.
  - rewrite (print_it_first_fails p r1 r2 e1 w E1). intros [= <-]. now left.
Qed.

(** * More on [rev_comp] *)

Lemma length_append (s t : string) :
  String.length (s ++ t) = (String.length s + String.length t)%nat.
Proof.
  induction s as [|c s IH]; simpl; [reflexivity | now rewrite IH].
Qed.

Lemma length_string_rev (s : string) :
  String.length (string_rev s) = String.length s.
Proof.
  induction s as [|c s IH]; simpl; [reflexivity|].
  rewrite length_append, IH. simpl. lia.
Qed.

Lemma length_string_map (f : ascii -> ascii) (s : string) :
  String.length (string_map f s) = String.length s.
Proof.
  induction s as [|c s IH]; simpl; [reflexivity | now rewrite IH].
Qed.

Lemma first_bad_append (s t : string) :
  first_bad (s ++ t) =
  match first_bad s with Some c => Some c | None => first_bad t end.
Proof.
  induction s as [|c s IH]; simpl; [reflexivity|].
  now destruct (is_base c).
Qed.

(** X5: when [rev_comp] succeeds, the strings it returns have the
    lengths of the strings it was given, so sequence and quality stay
    parallel; and the result for two concatenated reads is the
    concatenation of the two results in the opposite order. *)
Theorem rev_comp_length_append (s q : string) (s' q' : string) :
  rev_comp s q = Ok (s', q') ->
  String.length s' = String.length s
  /\ String.length q' = String.length q
  /\ forall t r t' r',
       rev_comp t r = Ok (t', r') ->
       rev_comp (s ++ t) (q ++ r) = Ok (t' ++ s', r' ++ q').
Proof.
  rewrite rev_comp_spec. destruct (first_bad s) as [c|] eqn:Es;
    [discriminate|].
  intros [= <- <-].
  rewrite !length_string_rev, length_string_map.
  split; [reflexivity|]. split; [reflexivity|].
  intros t r t' r'. rewrite !rev_comp_spec, first_bad_append, Es.
  destruct (first_bad t) as [c|]; [discriminate|].
  intros [= <- <-].
  now rewrite string_map_append, !string_rev_append.
Qed.

Lemma rev_comp_length_append_sample :
  rev_comp "AACG" "!!#!" = Ok ("CGTT", "!#!!")
  /\ String.length "CGTT" = String.length "AACG".
Proof.
  split; [reflexivity|].
  exact (proj1 (rev_comp_length_append "AACG" "!!#!" "CGTT" "!#!!" eq_refl)).
Defined.

(** * More on the classification *)

Lemma perfect_alignments_mono (r1 r2 : AlignedSegment) (mm mm' : Z) :
  mm <= mm' ->
  perfect_alignments r1 r2 mm = true -> perfect_alignments r1 r2 mm' = true.
Proof.
  unfold perfect_alignments. intros Hm.
  destruct (edit_tags r1 r2) as [[e1 e2]|]; [|discriminate].
  rewrite !andb_true_iff, !Z.leb_le. intuition lia.
Qed.

(** X6: raising the mismatch bound only moves pairs from kept to
    discarded: a pair discarded under a bound is discarded under every
    larger bound, a pair with both records unmapped is kept under every
    bound, and so a pair kept under a bound is kept under every smaller
    one. *)
Theorem classify_mono (r1 r2 : AlignedSegment) (mm mm' : Z) (stype : string) :
  mm <= mm' ->
  (classify r1 r2 mm stype = Discard -> classify r1 r2 mm' stype = Discard)
  /\ (classify r1 r2 mm stype = KeepUnmapped <->
      classify r1 r2 mm' stype = KeepUnmapped)
  /\ (kept mm' stype (r1, r2) = true -> kept mm stype (r1, r2) = true).
Proof.
  intros Hm. pose proof (perfect_alignments_mono r1 r2 mm mm' Hm) as Hp.
  unfold kept, classify; simpl.
  destruct (negb (is_unmapped r1 && is_unmapped r2));
    [|repeat split; auto; discriminate].
  destruct (both_mapped r1 r2 && mated r1 r2 stype); simpl;
    [|repeat split; auto; discriminate].
  destruct (perfect_alignments r1 r2 mm).
  - rewrite (Hp eq_refl). repeat split; auto; discriminate.
  - destruct (perfect_alignments r1 r2 mm');
      repeat split; auto; discriminate.
Qed.

Lemma classify_mono_sample :
  0 <= 3
  /\ (classify fwd_mate1 rev_mate2 0 "DNA" = Discard ->
      classify fwd_mate1 rev_mate2 3 "DNA" = Discard).
Proof.
  split; [lia|].
  apply (classify_mono fwd_mate1 rev_mate2 0 3 "DNA"). lia.
Defined.

Lemma edit_tags_swap (r1 r2 : AlignedSegment) :
  edit_tags r2 r1 =
  match edit_tags r1 r2 with
  | Some (e1, e2) => Some (e2, e1)
  | None => None
  end.
Proof.
  unfold edit_tags, try_tags.
  destruct (get_tag r1 "NM"), (get_tag r2 "NM"),
    (get_tag r1 "nM"), (get_tag r2 "nM"); reflexivity.
Qed.

Lemma perfect_alignments_swap (r1 r2 : AlignedSegment) (mm : Z) :
  perfect_alignments r2 r1 mm = perfect_alignments r1 r2 mm.
Proof.
  unfold perfect_alignments. rewrite edit_tags_swap.
  destruct (edit_tags r1 r2) as [[e1 e2]|]; [|reflexivity].
  rewrite (andb_comm (single_match r2)), (andb_comm (e2 <=? mm)).
  reflexivity.
Qed.

(** X7: the classification depends on the order of the two mates only
    through the insert size, which [mated] reads on the first record:
    the two orders give the same outcome when the sample type is not
    DNA, and for DNA when the two insert sizes have the same absolute
    value. *)
Theorem classify_swap (r1 r2 : AlignedSegment) (mm : Z) (stype : string) :
  stype <> "DNA" \/ Z.abs (isize r1) = Z.abs (isize r2) ->
  classify r2 r1 mm stype = classify r1 r2 mm stype.
Proof.
  intros H. unfold classify, both_mapped.
  rewrite perfect_alignments_swap, (andb_comm (is_unmapped r2)).
  assert (Hm : mated r2 r1 stype = mated r1 r2 stype).
  { unfold mated. rewrite (Z.eqb_sym (rname r2)).
    destruct (String.eqb_spec stype "DNA") as [E|E]; [|reflexivity].
    destruct H as [H|H]; [contradiction | now rewrite H]. }
  now rewrite Hm.
Qed.

Lemma classify_swap_sample :
  ("RNA" <> "DNA" \/ Z.abs (isize fwd_mate1) = Z.abs (isize rev_mate2))
  /\ classify rev_mate2 fwd_mate1 0 "DNA" = classify fwd_mate1 rev_mate2 0 "DNA".
Proof.
  split; [right; reflexivity|].
  apply (classify_swap fwd_mate1 rev_mate2 0 "DNA"). right. reflexivity.
Defined.

Lemma evaluate_loop_ext (p : bool) (mm : Z) (s1 s2 : string) :
  (forall mates c, evaluate_body p mm s1 mates c = evaluate_body p mm s2 mates c) ->
  forall fuel g c w,
    evaluate_loop fuel p mm s1 g c w = evaluate_loop fuel p mm s2 g c w.
Proof.
  intros Hb. induction fuel as [|fuel IH]; intros g c w; [reflexivity|].
  simpl. destruct (generator_next g w) as [[mates| |e] w1];
    [|reflexivity|reflexivity].
  rewrite Hb.
  destruct (evaluate_body p mm s2 mates _ w1) as [[c'|e] w2];
    [apply IH | reflexivity].
Qed.

(** X8: the sample type is compared with the string DNA and nothing
    else: under every other value, whatever its spelling, [mated] is the
    equality of the references, and the classification and the whole
    run are those of RNA. *)
Theorem stype_not_DNA (stype : string) :
  stype <> "DNA" ->
  (forall r1 r2, mated r1 r2 stype = (rname r1 =? rname r2))
  /\ (forall r1 r2 mm, classify r1 r2 mm stype = classify r1 r2 mm "RNA")
  /\ (forall p mm w, evaluate p mm stype w = evaluate p mm "RNA" w).
Proof.
  intros H%String.eqb_neq.
  assert (Hm : forall r1 r2, mated r1 r2 stype = mated r1 r2 "RNA")
    by (intros; unfold mated; now rewrite H).
  split; [intros r1 r2; unfold mated; now rewrite H|].
  split; [intros r1 r2 mm; unfold classify; now rewrite Hm|].
  intros p mm w. unfold evaluate. apply evaluate_loop_ext.
  intros mates c. unfold evaluate_body. now rewrite Hm.
Qed.

Lemma stype_not_DNA_sample :
  "dna" <> "DNA"
  /\ classify fwd_mate1 rev_mate2 0 "dna" = classify fwd_mate1 rev_mate2 0 "RNA".
Proof.
  split; [discriminate|].
  apply (stype_not_DNA "dna"). discriminate.
Defined.

(** * More on the generator *)

Lemma select_mates_roles (g : gen_pos) :
  pulls (select_mates g)
        (fun mates _ =>
           not_mate1 (fst mates) = false /\ not_mate2 (snd mates) = false).
Proof.
  unfold select_mates. eapply pulls_weaken.
  - apply pulls_bind; [apply select_mate1_pulls|].
    intros r1. apply pulls_bind with
      (R := fun r2 (mates : AlignedSegment * AlignedSegment) pre =>
              mates = (r1, r2));
      [apply select_mate2_pulls|].
    intros r2 w. unfold ret. exists []. split; [apply advances_refl|auto].
  - cbn beta.
    intros mates pre
      (r1 & p1 & p' & _ & (_ & H1) & r2 & p2 & p3 & _ & (_ & H2) & ->).
    auto.
Qed.

Lemma resume_roles (g : gen_pos) (w w' : world)
    (mates : AlignedSegment * AlignedSegment) :
  resume g w = (Ok mates, w') ->
  not_mate1 (fst mates) = false /\ not_mate2 (snd mates) = false.
Proof.
  unfold resume, bind. pose proof (select_mates_roles g w) as H.
  destruct (select_mates g w) as [[m|e] w1]; [|discriminate].
  destruct H as (pre & _ & H).
  destruct (check_names_cases m w1) as [[_ ->]|[_ ->]]; [|discriminate].
  now intros [= <- _].
Qed.

Lemma read_bam_loop_Forall (P : AlignedSegment * AlignedSegment -> Prop) :
  (forall g w mates w', resume g w = (Ok mates, w') -> P mates) ->
  forall fuel g w pairs e w',
    read_bam_loop fuel g w = Some (pairs, e, w') -> Forall P pairs.
Proof.
  intros HP. induction fuel as [|fuel IH]; intros g w pairs e w' H;
    [discriminate|].
  simpl in H. destruct (resume g w) as [[mates|e0] w1] eqn:E.
  - destruct (read_bam_loop fuel GenYielded w1) as [[[pairs' e'] w2]|] eqn:E';
      [|discriminate].
    injection H as <- <- <-. constructor; eauto.
  - injection H as <- <- <-. constructor.
Qed.

Lemma not_mate_flags (read : AlignedSegment) (role : bool) :
  (is_secondary read && negb role) || flag_and read 2048 = false ->
  flag_and read 2048 = false /\ (is_secondary read = true -> role = true).
Proof.
  destruct (is_secondary read), role, (flag_and read 2048); simpl;
    intros H; split; congruence.
Qed.

(** X9: no supplementary alignment is ever yielded, hence none is
    classified or printed; the first record of a yielded pair is a
    secondary alignment only when it is flagged read1, the second only
    when it is flagged read2. *)
Theorem yielded_roles (w w' : world)
    (pairs : list (AlignedSegment * AlignedSegment)) (e : exn) :
  read_bam w = Some (pairs, e, w') ->
  Forall (fun mates =>
            flag_and (fst mates) 2048 = false
            /\ flag_and (snd mates) 2048 = false
            /\ (is_secondary (fst mates) = true -> is_read1 (fst mates) = true)
            /\ (is_secondary (snd mates) = true -> is_read2 (snd mates) = true))
         pairs.
Proof.
  unfold read_bam. apply read_bam_loop_Forall.
  intros g w0 mates w1 H. apply resume_roles in H. destruct H as (H1 & H2).
  apply not_mate_flags in H1. apply not_mate_flags in H2. tauto.
Qed.

Lemma yielded_roles_sample :
  read_bam (start [supp_mate1; fwd_mate1; supp_mate1; rev_mate2]) =
    Some ([(fwd_mate1, rev_mate2)], StopIteration,
          mkWorld [] 4 "" "" "" "" "")
  /\ Forall (fun mates =>
               flag_and (fst mates) 2048 = false
               /\ flag_and (snd mates) 2048 = false
               /\ (is_secondary (fst mates) = true ->
                   is_read1 (fst mates) = true)
               /\ (is_secondary (snd mates) = true ->
                   is_read2 (snd mates) = true))
            [(fwd_mate1, rev_mate2)].
Proof.
  split; [reflexivity|].
  exact (yielded_roles (start [supp_mate1; fwd_mate1; supp_mate1; rev_mate2])
           (mkWorld [] 4 "" "" "" "" "") [(fwd_mate1, rev_mate2)]
           StopIteration eq_refl).
Defined.

Lemma skip_false (cond : AlignedSegment -> bool) (read : AlignedSegment)
    (w : world) :
  cond read = false -> skip cond read w = (Ok read, w).
Proof.
  intros H. destruct w as [it t lg f1 f2 so se]. unfold skip; simpl.
  destruct it; simpl; now rewrite H.
Qed.

Lemma is_primary_conds (read : AlignedSegment) :
  is_primary read = true ->
  is_secondary read = false /\ not_mate1 read = false
  /\ not_mate2 read = false.
Proof.
  unfold is_primary, not_mate1, not_mate2.
  destruct (is_secondary read), (flag_and read 2048); simpl;
    intros H; try discriminate; auto.
Qed.

Lemma select_mate1_primary (g : gen_pos) (a : AlignedSegment)
    (rest : list AlignedSegment) (t : nat) (lg f1 f2 so se : string) :
  is_primary a = true ->
  select_mate1 g (mkWorld (a :: rest) t lg f1 f2 so se) =
  (Ok a, mkWorld rest (S t) lg f1 f2 so se).
Proof.
  intros (Hs & H1 & _)%is_primary_conds.
  destruct g; unfold select_mate1, bind, next_read; simpl;
    now rewrite ?skip_false.
Qed.

Lemma resume_primary (g : gen_pos) (l : list AlignedSegment) (t : nat)
    (lg f1 f2 so se : string) :
  Forall (fun r => is_primary r = true) l ->
  resume g (mkWorld l t lg f1 f2 so se) =
  match l with
  | a :: b :: rest =>
      check_names (a, b) (mkWorld rest (S (S t)) lg f1 f2 so se)
  | _ => (Exc StopIteration, mkWorld [] (t + List.length l) lg f1 f2 so se)
  end.
Proof.
  intros H. destruct l as [|a [|b rest]].
  - simpl. rewrite Nat.add_0_r. now destruct g.
  - inversion H as [|? ? Ha _]; subst.
    unfold resume, select_mates, bind.
    rewrite (select_mate1_primary g a [] t lg f1 f2 so se Ha). simpl.
    now rewrite Nat.add_1_r.
  - inversion H as [|? ? Ha H']; subst. inversion H' as [|? ? Hb _]; subst.
    apply is_primary_conds in Hb. destruct Hb as (_ & _ & Hb).
    unfold resume, select_mates, bind.
    rewrite (select_mate1_primary g a (b :: rest) t lg f1 f2 so se Ha).
    unfold select_mate2, bind, next_read; simpl.
    now rewrite (skip_false _ _ _ Hb).
Qed.

Lemma read_bam_loop_primary (fuel : nat) :
  forall g l t lg f1 f2 so se,
    (List.length l < fuel)%nat ->
    Forall (fun r => is_primary r = true) l ->
    Forall (fun m => query_name (fst m) = query_name (snd m)) (pair_up l) ->
    read_bam_loop fuel g (mkWorld l t lg f1 f2 so se) =
    Some (pair_up l, StopIteration,
          mkWorld [] (t + List.length l) lg f1 f2 so se).
Proof.
  induction fuel as [|fuel IH]; intros g l t lg f1 f2 so se Hf Hp Hn; [lia|].
  cbn [read_bam_loop]. rewrite (resume_primary g l t lg f1 f2 so se Hp).
  destruct l as [|a [|b rest]]; [reflexivity | reflexivity |].
  simpl in Hn. inversion Hn as [|? ? Hab Hn']; subst. simpl in Hab.
  destruct (check_names_cases (a, b) (mkWorld rest (S (S t)) lg f1 f2 so se))
    as [[_ ->]|[E _]]; [|contradiction].
  inversion Hp as [|? ? _ Hp']; subst. inversion Hp' as [|? ? _ Hp'']; subst.
  rewrite (IH GenYielded rest (S (S t)) lg f1 f2 so se);
    [|simpl in Hf; lia|assumption|assumption].
  simpl. do 3 f_equal. lia.
Qed.

(** X10: on a stream of primary records in which every two consecutive
    records (first and second, third and fourth, ...) have the same
    name, the generator yields exactly these consecutive pairs in order
    and ends on the exhausted iterator with every record counted; a last
    record without partner is counted and left out. *)
Theorem read_bam_primary_stream (w : world) :
  Forall (fun r => is_primary r = true) (bamiter w) ->
  Forall (fun m => query_name (fst m) = query_name (snd m))
         (pair_up (bamiter w)) ->
  read_bam w =
  Some (pair_up (bamiter w), StopIteration,
        mkWorld [] (total_reads w + List.length (bamiter w)) (logfile w)
                (fq1 w) (fq2 w) (stdout w) (stderr w)).
Proof.
  destruct w as [l t lg f1 f2 so se].
  cbn [bamiter total_reads logfile fq1 fq2 stdout stderr]. intros Hp Hn.
  unfold read_bam. cbn [bamiter].
  apply read_bam_loop_primary; auto.
Qed.

Lemma read_bam_primary_stream_sample :
  Forall (fun r => is_primary r = true)
         [fwd_mate1; rev_mate2; lost_mate1; lost_mate2; bare_mate1]
  /\ read_bam (start [fwd_mate1; rev_mate2; lost_mate1; lost_mate2;
                      bare_mate1]) =
     Some ([(fwd_mate1, rev_mate2); (lost_mate1, lost_mate2)], StopIteration,
           mkWorld [] 5 "" "" "" "" "").
Proof.
  assert (Hp : Forall (fun r => is_primary r = true)
                 [fwd_mate1; rev_mate2; lost_mate1; lost_mate2; bare_mate1])
    by (repeat constructor).
  split; [exact Hp|].
  apply (read_bam_primary_stream
           (start [fwd_mate1; rev_mate2; lost_mate1; lost_mate2; bare_mate1])
           Hp).
  repeat constructor.
Defined.

Lemma read_bam_loop_consumed (fuel : nat) :
  forall g w pairs e w',
    read_bam_loop fuel g w = Some (pairs, e, w') ->
    exists pre,
      bamiter w = (pre ++ bamiter w')%list
      /\ total_reads w' = (total_reads w + List.length pre)%nat
      /\ (2 * List.length pairs <= List.length pre)%nat.
Proof.
  induction fuel as [|fuel IH]; intros g w pairs e w' H; [discriminate|].
  simpl in H. pose proof (resume_cases g w) as Hc.
  destruct (resume g w) as [[mates|e0] w1].
  - destruct (read_bam_loop fuel GenYielded w1) as [[[pairs' e'] w2]|] eqn:E;
      [|discriminate].
    injection H as <- <- <-.
    destruct Hc as (pre & (Hb & Ht & _) & _ & _ & Hl & _).
    destruct (IH _ _ _ _ _ E) as (pre' & Hb' & Ht' & Hl').
    exists (pre ++ pre')%list.
    rewrite Hb, Hb', Ht', Ht, length_app, <- app_assoc. simpl.
    repeat split; lia.
  - injection H as <- <- <-.
    destruct e0 as [|args|k|args]; [| |contradiction|contradiction].
    + destruct Hc as (_ & pre & (Hb & Ht & _)).
      exists pre. simpl. repeat split; auto; lia.
    + destruct Hc as (_ & r1 & r2 & w0 & pre & (Hb & Ht & _)
                      & _ & _ & _ & ->).
      exists pre. simpl. repeat split; auto; lia.
Qed.

(** X11: however the generator ends, on the exhausted iterator or on a
    mismatch of names, [total_reads] has grown by exactly the number of
    records taken from the iterator, at least two for each pair
    yielded, and the records after them are still in the iterator,
    unread. *)
Theorem total_reads_counts_pulls (w w' : world)
    (pairs : list (AlignedSegment * AlignedSegment)) (e : exn) :
  read_bam w = Some (pairs, e, w') ->
  exists pre,
    bamiter w = (pre ++ bamiter w')%list
    /\ total_reads w' = (total_reads w + List.length pre)%nat
    /\ (2 * List.length pairs <= List.length pre)%nat.
Proof.
  unfold read_bam. apply read_bam_loop_consumed.
Qed.

Lemma total_reads_counts_pulls_sample :
  read_bam (start [fwd_mate1; other_mate2; lost_mate1; lost_mate2]) =
    Some ([], ValueError [],
          mkWorld [lost_mate1; lost_mate2] 2
                  (mismatch_message fwd_mate1 other_mate2) "" "" "" "")
  /\ exists pre,
       [fwd_mate1; other_mate2; lost_mate1; lost_mate2] =
         (pre ++ [lost_mate1; lost_mate2])%list
       /\ 2%nat = (0 + List.length pre)%nat
       /\ (2 * 0 <= List.length pre)%nat.
Proof.
  split; [reflexivity|].
  exact (total_reads_counts_pulls
           (start [fwd_mate1; other_mate2; lost_mate1; lost_mate2])
           (mkWorld [lost_mate1; lost_mate2] 2
                    (mismatch_message fwd_mate1 other_mate2) "" "" "" "")
           [] (ValueError []) eq_refl).
Defined.

(** * The FASTQ record *)

Lemma count_nl_append (s t : string) :
  count_nl (s ++ t) = (count_nl s + count_nl t)%nat.
Proof.
  induction s as [|c s IH]; simpl; [reflexivity|]. rewrite IH. lia.
Qed.

Lemma count_nl_string_rev (s : string) : count_nl (string_rev s) = count_nl s.
Proof.
  induction s as [|c s IH]; simpl; [reflexivity|].
  rewrite count_nl_append, IH. simpl. lia.
Qed.

Lemma count_nl_complement (s : string) :
  count_nl (string_map complement s) = count_nl s.
Proof.
  induction s as [|c s IH]; simpl; [reflexivity|]. rewrite IH. f_equal.
  unfold complement, code, code_table; cbn [lookup_code].
  repeat match goal with
         | |- context [Ascii.eqb ?k c] =>
             destruct (Ascii.eqb_spec k c) as [<-|_]; [reflexivity|]
         end.
  reflexivity.
Qed.

(** X12: the text written for a record has four line ends besides those
    inside its name, sequence and quality, and it begins with the at
    sign; orienting a record adds or removes no line end.  A record
    whose name, sequence and quality hold no line end is thus written as
    exactly four lines. *)
Theorem fastq_record_lines (name cur_seq cur_qual : string) :
  count_nl (fastq_record name cur_seq cur_qual) =
    (4 + count_nl name + count_nl cur_seq + count_nl cur_qual)%nat
  /\ (exists rest, fastq_record name cur_seq cur_qual = String "@" rest)
  /\ (forall b s' q',
        normalize cur_seq cur_qual b = Ok (s', q') ->
        count_nl s' = count_nl cur_seq /\ count_nl q' = count_nl cur_qual).
Proof.
  split; [|split].
  - unfold fastq_record. rewrite !count_nl_append. simpl. lia.
  - unfold fastq_record. simpl. eauto.
  - intros b s' q'. unfold normalize. destruct b.
    + rewrite rev_comp_spec. destruct (first_bad cur_seq); [discriminate|].
      intros [= <- <-].
      now rewrite !count_nl_string_rev, count_nl_complement.
    + now intros [= <- <-].
Qed.
